(** * Automation input preparation, paginated listing, service clean-up and
      health-check waiting of the wandb SDK: a shallow embedding

    Sources embedded here:
    - [wandb/sdk/automations/_utils.py]    (input preparers)
    - [wandb/apis/public/automations.py]   (paginated listing)
    - [wandb/apis/public/service_api.py]   (finalizer clean-up)
    - [tools/local_wandb_server.py]        (health-check waiting)

    Python values that may raise are embedded in the [result] monad below;
    dictionaries are [gmap]s; records are Rocq records, one module per class
    so that attribute names stay those of the source. *)

From stdpp Require Import base option strings gmap list finite pretty.
From Stdlib Require Import ZArith Ascii.

#[local] Set Warnings "-register-all".

#[local] Open Scope string_scope.
#[local] Open Scope Z_scope.

(** ** Python exceptions *)

(** The exception classes this code names or meets.  All of them derive from
    [Exception]: the signals of the interpreter that derive from
    [BaseException] only ([KeyboardInterrupt], [SystemExit]) are not
    modelled.  The [requests_*] classes are those of the [requests] package
    (its [ConnectionError] and [Timeout] are not the builtins). *)
Inductive exn_class : Set :=
| Exception
| LookupError
| KeyError
| TypeError
| AttributeError
| ValueError
| ValidationError
| RuntimeError
| OSError
| TimeoutError
| requests_RequestException
| requests_ConnectionError
| requests_Timeout
| requests_ConnectTimeout
| requests_ReadTimeout.

#[global] Instance exn_class_eq_dec : EqDecision exn_class.
Proof. solve_decision. Defined.

(** The ancestors of a class, itself included (its method resolution
    order without [BaseException] and [object]). *)
Definition mro (c : exn_class) : list exn_class :=
  match c with
  | Exception => [Exception]
  | LookupError => [LookupError; Exception]
  | KeyError => [KeyError; LookupError; Exception]
  | TypeError => [TypeError; Exception]
  | AttributeError => [AttributeError; Exception]
  | ValueError => [ValueError; Exception]
  | ValidationError => [ValidationError; ValueError; Exception]
  | RuntimeError => [RuntimeError; Exception]
  | OSError => [OSError; Exception]
  | TimeoutError => [TimeoutError; OSError; Exception]
  | requests_RequestException => [requests_RequestException; OSError; Exception]
  | requests_ConnectionError =>
      [requests_ConnectionError; requests_RequestException; OSError; Exception]
  | requests_Timeout =>
      [requests_Timeout; requests_RequestException; OSError; Exception]
  | requests_ConnectTimeout =>
      [requests_ConnectTimeout; requests_ConnectionError; requests_Timeout;
       requests_RequestException; OSError; Exception]
  | requests_ReadTimeout =>
      [requests_ReadTimeout; requests_Timeout; requests_RequestException;
       OSError; Exception]
  end.

(** A raised exception: its class and its message (or, for [KeyError], the
    missing key). *)
Record exn : Set := Exn { exn_type : exn_class; exn_arg : string }.

Definition isinstance (e : exn) (c : exn_class) : bool :=
  bool_decide (c ∈ mro (exn_type e)).

(** [isinstance(e, (c1, ..., cn))] *)
Definition isinstance_any (e : exn) (cs : list exn_class) : bool :=
  existsb (isinstance e) cs.

(** ** Computations that return or raise *)

Inductive result (A : Type) : Type :=
| Ok (a : A)
| Raise (e : exn).
Arguments Ok {A} a.
Arguments Raise {A} e.

#[global] Instance result_ret : MRet result := @Ok.
#[global] Instance result_bind : MBind result := λ A B f r,
  match r with Ok a => f a | Raise e => Raise e end.
#[global] Instance result_fmap : FMap result := λ A B f r,
  match r with Ok a => Ok (f a) | Raise e => Raise e end.

Definition is_Ok {A} (r : result A) : Prop := ∃ a, r = Ok a.

(** [try: body  except (cs) as e: handler e] *)
Definition try_except {A} (body : result A) (cs : list exn_class)
    (handler : exn → result A) : result A :=
  match body with
  | Ok a => Ok a
  | Raise e => if isinstance_any e cs then handler e else Raise e
  end.

(** [with contextlib.suppress(cs): body] *)
Definition suppress (cs : list exn_class) (body : result unit) : result unit :=
  try_except body cs (λ _, Ok ()).

(** [for x in xs: f x], collecting the results; the first exception ends
    the loop. *)
Fixpoint for_each {A B} (f : A → result B) (xs : list A) : result (list B) :=
  match xs with
  | [] => Ok []
  | x :: xs' => y ← f x; ys ← for_each f xs'; mret (y :: ys)
  end.

(** [d[k]] on a dictionary: [KeyError(k)] when the key is absent. *)
Definition dict_getitem {K V} `{Countable K} (repr : K → string)
    (d : gmap K V) (k : K) : result V :=
  match d !! k with
  | Some v => Ok v
  | None => Raise (Exn KeyError (repr k))
  end.

(** ** JSON-like response data *)

Inductive json : Type :=
| JNull
| JBool (b : bool)
| JInt (n : Z)
| JStr (s : string)
| JList (xs : list json)
| JDict (d : gmap string json).

(** [obj["key"]] on an arbitrary decoded value: only a [dict] can be
    subscripted by a string; [None], numbers, strings and lists raise
    [TypeError]. *)
Definition getitem (obj : json) (key : string) : result json :=
  match obj with
  | JDict d => dict_getitem (λ k, k) d key
  | JNull => Raise (Exn TypeError "'NoneType' object is not subscriptable")
  | JBool _ => Raise (Exn TypeError "'bool' object is not subscriptable")
  | JInt _ => Raise (Exn TypeError "'int' object is not subscriptable")
  | JStr _ => Raise (Exn TypeError "string indices must be integers")
  | JList _ => Raise (Exn TypeError "list indices must be integers or slices, not str")
  end.

(** ** Automations: data model *)

(** Modelled from the spec: the [ActionType] enum of
    [wandb/sdk/automations/actions.py], which is not among the sources
    embedded here.  The three kinds the spec lists, and [QUEUE_JOB], the
    deprecated Launch-job kind that the note above [_ACTION_CONFIG_KEYS] says
    is deliberately left out of the table. *)
Inductive ActionType : Set :=
| QUEUE_JOB
| NOTIFICATION
| GENERIC_WEBHOOK
| NO_OP.

#[global] Instance ActionType_eq_dec : EqDecision ActionType.
Proof. solve_decision. Defined.

#[global] Program Instance ActionType_finite : Finite ActionType :=
  {| enum := [QUEUE_JOB; NOTIFICATION; GENERIC_WEBHOOK; NO_OP] |}.
Next Obligation. by apply (bool_decide_unpack _). Qed.
Next Obligation. intros []; set_solver. Qed.

(** [ActionType] is a [str]-valued enum: the value of a member. *)
Definition ActionType_value (t : ActionType) : string :=
  match t with
  | QUEUE_JOB => "QUEUE_JOB"
  | NOTIFICATION => "NOTIFICATION"
  | GENERIC_WEBHOOK => "GENERIC_WEBHOOK"
  | NO_OP => "NO_OP"
  end.

(** Modelled from the spec: the [EventType] enum, with the event kinds that
    section 3 of the spec names. *)
Inductive EventType : Set :=
| CREATE_ARTIFACT
| RUN_METRIC
| UPDATE_ARTIFACT_ALIAS
| ADD_ARTIFACT_ALIAS.

(** Modelled from the spec: the [ScopeType] enum (section 3 of the spec). *)
Inductive ScopeType : Set :=
| PROJECT
| ARTIFACT_COLLECTION.

(** Modelled from the spec: the metric window of a run-metric filter, with
    the fields the system test builds ([MetricFilter(name=..., window_size=...,
    agg_op=..., cmp_op=..., threshold=...)]). *)
Record MetricFilter : Set := {
  metric_name : string;
  window_size : Z;
  agg_op : string;
  cmp_op : string;
  threshold : Z;
}.

(** Modelled from the spec: filter trees ([And]/[Or] over leaf predicates, the
    run-metric filter) and [_WrappedEventFilter], the representation a read
    decodes a saved filter into, whose [filter] attribute is the inner
    expression.  [wandb/sdk/automations/events.py] and [filters.py] are not
    among the sources embedded here. *)
Inductive Filter : Type :=
| And (inner : list Filter)
| Or (inner : list Filter)
| FilterExpr (field op value : string)
| RunMetricFilter (run_filter : Filter) (metric_filter : MetricFilter)
| _WrappedEventFilter (filter : Filter).

(** [isinstance(f, _WrappedEventFilter)] *)
Definition is_WrappedEventFilter (f : Filter) : bool :=
  match f with _WrappedEventFilter _ => true | _ => false end.

Module Scope.
(** Modelled from the spec: a scope, with its discriminant, its opaque
    backend identifier and its display name. *)
Record t : Set := mk { scope_type : ScopeType; id : string; name : string }.
End Scope.

Module Event.
(** Modelled from the spec: an event, with its discriminant, its embedded
    scope and its filter. *)
Record t : Type := mk { event_type : EventType; scope : Scope.t; filter : Filter }.
End Event.

Module DoNotification.
(** Modelled from the spec: the three input action classes that [_utils.py]
    imports from [actions.py], each with the fields meaningful to it
    (notification: integration reference, title, message text and severity;
    webhook: integration reference and JSON payload; no-op: a flag). *)
Record t : Set := mk {
  integration_id : string; title : string; message : string; severity : string;
}.
End DoNotification.

Module DoWebhook.
(** Modelled from the spec: the webhook input action. *)
Record t : Set := mk { integration_id : string; request_payload : string }.
End DoWebhook.

Module DoNothing.
(** Modelled from the spec: the no-op input action. *)
Record t : Set := mk { no_op : bool }.
End DoNothing.

(** Modelled from the spec: the values of type [_InputAction | _SavedAction],
    that is an input action of one of the three classes, or a saved action as
    decoded from a read, which carries its own discriminant (possibly
    [QUEUE_JOB]) and its raw fields. *)
Inductive Action : Type :=
| InputNotification (a : DoNotification.t)
| InputWebhook (a : DoWebhook.t)
| InputNoOp (a : DoNothing.t)
| SavedAction (saved_type : ActionType) (fields : gmap string string).

(** [obj.action_type] *)
Definition action_type (obj : Action) : ActionType :=
  match obj with
  | InputNotification _ => NOTIFICATION
  | InputWebhook _ => GENERIC_WEBHOOK
  | InputNoOp _ => NO_OP
  | SavedAction t _ => t
  end.

Module NewAutomation.
(** Modelled from the spec: the unsaved automation ([NewAutomation]), every
    attribute of which may still be missing. *)
Record t : Type := mk {
  name : option string;
  description : option string;
  enabled : option bool;
  scope : option Scope.t;
  event : option Event.t;
  action : option Action;
}.
End NewAutomation.

Module PreparedAutomation.
(** Modelled from the spec: a fully defined automation, ready to be sent. *)
Record t : Type := mk {
  name : string;
  description : option string;
  enabled : bool;
  scope : Scope.t;
  event : Event.t;
  action : Action;
}.
End PreparedAutomation.

Module Automation.
(** Modelled from the spec: a saved automation, with its identity. *)
Record t : Type := mk {
  id : string;
  name : string;
  description : option string;
  enabled : bool;
  scope : Scope.t;
  event : Event.t;
  action : Action;
}.
End Automation.

Module AutomationParams.
(** [class AutomationParams(TypedDict, total=False)]: a key that is absent is
    [None] here. *)
Record t : Type := mk {
  name : option string;
  description : option string;
  enabled : option bool;
  scope : option Scope.t;
  event : option Event.t;
  action : option Action;
}.

(** no keyword arguments *)
Definition empty : t := mk None None None None None None.
End AutomationParams.

Module InputActionConfig.
(** [class InputActionConfig(TriggeredActionConfig)] *)
Record t : Set := mk {
  notification_action_input : option DoNotification.t;
  generic_webhook_action_input : option DoWebhook.t;
  no_op_action_input : option DoNothing.t;
}.
End InputActionConfig.

Module CreateFilterTriggerInput.
(** The request payloads, with the fields the preparers pass to their
    constructors.  Constructing a payload from values of these types is
    taken to succeed. *)
Record t : Type := mk {
  name : string;
  description : option string;
  enabled : bool;
  scope_type : ScopeType;
  scope_id : string;
  triggering_event_type : EventType;
  event_filter : Filter;
  triggered_action_type : ActionType;
  triggered_action_config : InputActionConfig.t;
}.
End CreateFilterTriggerInput.

Module UpdateFilterTriggerInput.
(** The update payload: the fields of the create payload, and [id]. *)
Record t : Type := mk {
  id : string;
  name : string;
  description : option string;
  enabled : bool;
  scope_type : ScopeType;
  scope_id : string;
  triggering_event_type : EventType;
  event_filter : Filter;
  triggered_action_type : ActionType;
  triggered_action_config : InputActionConfig.t;
}.
End UpdateFilterTriggerInput.

(** ** [wandb/sdk/automations/_utils.py] *)

(** pydantic validation against model classes that are declared outside the
    sources embedded here: what
    validating a value against [DoNotification], [DoWebhook], [DoNothing]
    (the annotations of the three [InputActionConfig] fields, whose validators
    also convert a saved action into an input action) and against
    [PreparedAutomation] returns or raises. *)
Class ActionSchema : Type := {
  DoNotification_validate : Action → result DoNotification.t;
  DoWebhook_validate : Action → result DoWebhook.t;
  DoNothing_validate : Action → result DoNothing.t;
  PreparedAutomation_model_validate : NewAutomation.t → result PreparedAutomation.t;
}.

Definition _ACTION_CONFIG_KEYS : gmap ActionType string :=
  {[ NOTIFICATION := "notification_action_input";
     GENERIC_WEBHOOK := "generic_webhook_action_input";
     NO_OP := "no_op_action_input" ]}.

(** One optional field of a model validated from a dictionary: the default
    [None] when its key is absent, the validated value otherwise. *)
Definition validate_field {A} (validate : Action → result A)
    (d : gmap string Action) (name : string) : result (option A) :=
  match d !! name with
  | Some v => Some <$> validate v
  | None => Ok None
  end.

(** [InputActionConfig.model_validate(d)] *)
Definition InputActionConfig_model_validate `{ActionSchema}
    (d : gmap string Action) : result InputActionConfig.t :=
  n ← validate_field DoNotification_validate d "notification_action_input";
  w ← validate_field DoWebhook_validate d "generic_webhook_action_input";
  z ← validate_field DoNothing_validate d "no_op_action_input";
  mret (InputActionConfig.mk n w z).

Definition prepare_action_input `{ActionSchema} (obj : Action)
    : result InputActionConfig.t :=
  key ← dict_getitem ActionType_value _ACTION_CONFIG_KEYS (action_type obj);
  InputActionConfig_model_validate {[ key := obj ]}.

(** [obj.model_copy(update=updates)] on an unsaved automation: the keys
    present in [updates] replace the attributes, the others are kept. *)
Definition NewAutomation_model_copy (obj : NewAutomation.t)
    (updates : AutomationParams.t) : NewAutomation.t :=
  {| NewAutomation.name :=
       from_option Some (NewAutomation.name obj) (AutomationParams.name updates);
     NewAutomation.description :=
       from_option Some (NewAutomation.description obj)
         (AutomationParams.description updates);
     NewAutomation.enabled :=
       from_option Some (NewAutomation.enabled obj) (AutomationParams.enabled updates);
     NewAutomation.scope :=
       from_option Some (NewAutomation.scope obj) (AutomationParams.scope updates);
     NewAutomation.event :=
       from_option Some (NewAutomation.event obj) (AutomationParams.event updates);
     NewAutomation.action :=
       from_option Some (NewAutomation.action obj) (AutomationParams.action updates) |}.

(** [obj.model_copy(update=updates)] on a saved automation. *)
Definition Automation_model_copy (obj : Automation.t)
    (updates : AutomationParams.t) : Automation.t :=
  {| Automation.id := Automation.id obj;
     Automation.name := default (Automation.name obj) (AutomationParams.name updates);
     Automation.description :=
       from_option Some (Automation.description obj)
         (AutomationParams.description updates);
     Automation.enabled :=
       default (Automation.enabled obj) (AutomationParams.enabled updates);
     Automation.scope :=
       default (Automation.scope obj) (AutomationParams.scope updates);
     Automation.event :=
       default (Automation.event obj) (AutomationParams.event updates);
     Automation.action :=
       default (Automation.action obj) (AutomationParams.action updates) |}.

Definition prepare_create_input `{ActionSchema} (obj : NewAutomation.t)
    (updates : AutomationParams.t) : result CreateFilterTriggerInput.t :=
  let updated := NewAutomation_model_copy obj updates in
  prepared ← PreparedAutomation_model_validate updated;
  triggered_action_config ← prepare_action_input (PreparedAutomation.action prepared);
  mret {|
    CreateFilterTriggerInput.name := PreparedAutomation.name prepared;
    CreateFilterTriggerInput.description := PreparedAutomation.description prepared;
    CreateFilterTriggerInput.enabled := PreparedAutomation.enabled prepared;
    CreateFilterTriggerInput.scope_type :=
      Scope.scope_type (PreparedAutomation.scope prepared);
    CreateFilterTriggerInput.scope_id := Scope.id (PreparedAutomation.scope prepared);
    CreateFilterTriggerInput.triggering_event_type :=
      Event.event_type (PreparedAutomation.event prepared);
    CreateFilterTriggerInput.event_filter :=
      Event.filter (PreparedAutomation.event prepared);
    CreateFilterTriggerInput.triggered_action_type :=
      action_type (PreparedAutomation.action prepared);
    CreateFilterTriggerInput.triggered_action_config := triggered_action_config;
  |}.

(** The conditional expression that [prepare_update_input] passes as
    [event_filter]. *)
Definition unwrapped_filter (f : Filter) : Filter :=
  match f with
  | _WrappedEventFilter inner => inner
  | _ => f
  end.

Definition prepare_update_input `{ActionSchema} (obj : Automation.t)
    (updates : AutomationParams.t) : result UpdateFilterTriggerInput.t :=
  let updated := Automation_model_copy obj updates in
  let action_type := action_type (Automation.action updated) in
  action_config ← prepare_action_input (Automation.action updated);
  mret {|
    UpdateFilterTriggerInput.id := Automation.id updated;
    UpdateFilterTriggerInput.name := Automation.name updated;
    UpdateFilterTriggerInput.description := Automation.description updated;
    UpdateFilterTriggerInput.enabled := Automation.enabled updated;
    UpdateFilterTriggerInput.scope_type := Scope.scope_type (Automation.scope updated);
    UpdateFilterTriggerInput.scope_id := Scope.id (Automation.scope updated);
    UpdateFilterTriggerInput.triggering_event_type :=
      Event.event_type (Automation.event updated);
    UpdateFilterTriggerInput.event_filter :=
      unwrapped_filter (Event.filter (Automation.event updated));
    UpdateFilterTriggerInput.triggered_action_type := action_type;
    UpdateFilterTriggerInput.triggered_action_config := action_config;
  |}.

(** ** [wandb/apis/public/automations.py] *)

(** Modelled from the spec: a raw trigger record of a page, kept as the value
    it was validated from (the generated [TriggerFields] model is not among
    the sources embedded here). *)
Definition TriggerFields : Type := json.

(** Modelled from the spec: the [pageInfo.{hasNextPage, endCursor}] part of a
    page. *)
Record PageInfoFields : Set := {
  has_next_page : bool;
  end_cursor : option string;
}.

(** Modelled from the spec: the [node.triggers[]] part of a project edge. *)
Record ProjectTriggersFields : Type := { triggers : list TriggerFields }.

(** Modelled from the spec: a project edge of a page. *)
Record ProjectConnectionFieldsEdges : Type := { node : ProjectTriggersFields }.

(** Modelled from the spec: the page shape
    [projects.{edges[].node.triggers[], pageInfo.{hasNextPage, endCursor}}]
    of the generated [ProjectConnectionFields] model. *)
Record ProjectConnectionFields : Type := {
  page_info : PageInfoFields;
  edges : list ProjectConnectionFieldsEdges;
}.

(** pydantic validation and serialisation of the models that are declared
    outside the sources embedded here: the page model, and the two halves
    of the per-record decoding
    [Automation.model_validate_json(obj.model_dump_json())]. *)
Class ListingSchema : Type := {
  ProjectConnectionFields_model_validate : json → result ProjectConnectionFields;
  TriggerFields_model_dump_json : TriggerFields → string;
  Automation_model_validate_json : string → result Automation.t;
}.

(** A parsed GraphQL document, and the two fixed queries. *)
Definition Document : Set := string.
Definition GET_TRIGGERS_BY_ENTITY_GQL : Document := "query GetTriggersByEntity".
Definition GET_TRIGGERS_GQL : Document := "query GetTriggers".

(** [client.execute(query, variable_values=variables)] *)
Definition _Client : Type := Document → gmap string json → result json.

(** The attributes of a paginator instance.  [AutomationsByEntity] and
    [AutomationsForViewer] declare the same attributes and define [more],
    [cursor], [_update_response] and [convert_objects] with the same bodies;
    they differ in the class constant [QUERY] only, which [__init__] stores
    in [_query]. *)
Record Paginator : Type := {
  client : _Client;
  variables : gmap string json;
  per_page : Z;
  last_response : option ProjectConnectionFields;
  _query : Document;
}.

(** Modelled from the spec: [Paginator.__init__] of [wandb/apis/paginator.py],
    the base class, which leaves the paginator with no page fetched. *)
Definition Paginator_init (client : _Client) (variables : gmap string json)
    (per_page : Z) (query : Document) : Paginator :=
  {| client := client; variables := variables; per_page := per_page;
     last_response := None; _query := query |}.

(** [AutomationsByEntity(client, variables, per_page)] *)
Definition AutomationsByEntity (client : _Client) (variables : gmap string json)
    (per_page : Z) : Paginator :=
  Paginator_init client variables per_page GET_TRIGGERS_BY_ENTITY_GQL.

(** [AutomationsForViewer(client, variables, per_page)] *)
Definition AutomationsForViewer (client : _Client) (variables : gmap string json)
    (per_page : Z) : Paginator :=
  Paginator_init client variables per_page GET_TRIGGERS_GQL.

Definition more (self : Paginator) : bool :=
  match last_response self with
  | None => true
  | Some page => has_next_page (page_info page)
  end.

Definition cursor (self : Paginator) : option string :=
  match last_response self with
  | None => None
  | Some page => end_cursor (page_info page)
  end.

(** The assignment [self.last_response = page] *)
Definition set_last_response (self : Paginator) (page : ProjectConnectionFields)
    : Paginator :=
  {| client := client self; variables := variables self; per_page := per_page self;
     last_response := Some page; _query := _query self |}.

(** The [try] block of [_update_response]. *)
Definition parse_page `{ListingSchema} (self : Paginator) (data : json)
    : result Paginator :=
  search_scope ← getitem data "searchScope";
  page_data ← getitem search_scope "projects";
  page ← ProjectConnectionFields_model_validate page_data;
  mret (set_last_response self page).

Definition _update_response `{ListingSchema} (self : Paginator) : result Paginator :=
  data ← client self (_query self) (variables self);
  try_except (parse_page self data)
    [LookupError; AttributeError; ValidationError]
    (λ e, Raise (Exn ValueError "Unexpected response data")).

(** [chain.from_iterable(edge.node.triggers for edge in page.edges)] *)
Definition page_triggers (page : ProjectConnectionFields) : list TriggerFields :=
  concat (map (λ edge, triggers (node edge)) (edges page)).

Definition convert_objects `{ListingSchema} (self : Paginator)
    : result (list Automation.t) :=
  match last_response self with
  | None => Raise (Exn AttributeError "'NoneType' object has no attribute 'edges'")
  | Some page =>
      for_each
        (λ obj, Automation_model_validate_json (TriggerFields_model_dump_json obj))
        (page_triggers page)
  end.

(** [None] or a string as a GraphQL variable. *)
Definition json_of_cursor (c : option string) : json :=
  match c with None => JNull | Some s => JStr s end.

(** Modelled from the spec: [Paginator.update_variables] of
    [wandb/apis/paginator.py], the base class: before a page is requested, the
    position token of the request is set to [self.cursor] and the page size
    to [self.per_page]. *)
Definition update_variables (self : Paginator) : Paginator :=
  {| client := client self;
     variables :=
       <["cursor" := json_of_cursor (cursor self)]>
         (<["perPage" := JInt (per_page self)]> (variables self));
     per_page := per_page self;
     last_response := last_response self;
     _query := _query self |}.

(** ** [wandb/apis/public/service_api.py] *)

(** A connection to the service, as far as [ServiceApi] uses it: what
    [connection.api_init_request(settings)] returns (the id of the response)
    or raises, and what [connection.api_cleanup_request(api_id)] returns or
    raises. *)
Record ServiceConnection : Type := {
  api_init_request : string → result string;
  api_cleanup_request : string → result unit;
}.

(** [_cleanup(connection, api_id)].  The requests issued to the backend are
    logged: the state is the list of the api ids a clean-up request was sent
    for, oldest first. *)
Definition _cleanup (connection : option ServiceConnection) (api_id : string)
    (sent : list string) : result unit * list string :=
  match connection with
  | Some conn =>
      (suppress [Exception] (api_cleanup_request conn api_id),
       (sent ++ [api_id])%list)
  | None => (Ok (), sent)
  end.

(** The attributes of a [ServiceApi], and the arguments of the call that
    [weakref.finalize] has registered for it, if any. *)
Record ServiceApi : Type := {
  _settings : string;
  _service_connection : option ServiceConnection;
  _api_id : string;
  finalizer : option (option ServiceConnection * string);
}.

(** [ServiceApi(settings)]; [uuid] is the fresh [str(uuid.uuid4())]. *)
Definition ServiceApi_init (settings uuid : string) : ServiceApi :=
  {| _settings := settings; _service_connection := None; _api_id := uuid;
     finalizer := None |}.

(** [self._get_service_connection()], where [ensure_service] is what
    [wandb_setup.singleton().ensure_service()] returns or raises.  An
    exception leaves the attributes assigned before it. *)
Definition _get_service_connection (ensure_service : result ServiceConnection)
    (self : ServiceApi) : result ServiceConnection * ServiceApi :=
  match _service_connection self with
  | Some conn => (Ok conn, self)
  | None =>
      match ensure_service with
      | Raise e => (Raise e, self)
      | Ok conn =>
          match api_init_request conn (_settings self) with
          | Raise e =>
              (Raise e,
               {| _settings := _settings self; _service_connection := Some conn;
                  _api_id := _api_id self; finalizer := finalizer self |})
          | Ok response_id =>
              (Ok conn,
               {| _settings := _settings self; _service_connection := Some conn;
                  _api_id := response_id;
                  finalizer := Some (Some conn, response_id) |})
          end
      end
  end.

(** The call made when the [ServiceApi] is garbage collected. *)
Definition finalize (self : ServiceApi) (sent : list string)
    : result unit * list string :=
  match finalizer self with
  | Some (connection, api_id) => _cleanup connection api_id sent
  | None => (Ok (), sent)
  end.

(** ** [tools/local_wandb_server.py] *)

(** What a [requests.get] call does: it returns a response, of which only the
    status code is read, or raises. *)
Inductive http_outcome : Set :=
| Response (status_code : Z)
| RequestRaises (e : exn).

(** The network and the servers behind it: for a [requests.get(url,
    timeout=t)] issued when the monotonic clock reads [now], the outcome of
    the call and the time it takes.  The clock is read in milliseconds. *)
Definition Network : Set := string → Z → Z → http_outcome * Z.

(** [time_remaining()], for a timeout in seconds. *)
Definition time_remaining (timeout start_time now : Z) : Z :=
  1000 * timeout - (now - start_time).

(** How one pass through the body of the [while True] loop ends: with
    [return], with an exception, or at the end of the body, for the next
    pass. *)
Inductive pass : Set :=
| Returns
| Raises (e : exn)
| Again.

(** The body of the loop, entered when the clock reads [now]: how the pass
    ends and what the clock reads then.  The clock is read in whole
    milliseconds and [time.sleep(1)] is taken to last one second exactly; the
    program reads seconds as floating-point numbers and its sleep lasts one
    second at least, so that a clock reading of the model is no upper bound
    on the time the program takes. *)
Definition loop_body (net : Network) (health_url : string)
    (timeout start_time now : Z) : pass * Z :=
  let '(outcome, took) :=
    net health_url (Z.max 1000 (time_remaining timeout start_time now)) now in
  let now := now + took in
  let after_try :=
    if bool_decide (time_remaining timeout start_time now ≤ 0)
    then (Raises (Exn TimeoutError ""), now)
    else (Again, now + 1000) in
  match outcome with
  | Response status_code =>
      if bool_decide (status_code = 200) then (Returns, now) else after_try
  | RequestRaises e =>
      if isinstance e requests_ConnectionError then after_try
      else if isinstance e requests_Timeout then (Raises (Exn TimeoutError ""), now)
      else (Raises e, now)
  end.

(** The [while True] loop of [_wait_for_http_200], from the clock reading
    [now].  The result is the outcome of the wait and the clock reading at
    its end; [None] when [fuel] passes did not end the loop. *)
Fixpoint wait_loop (fuel : nat) (net : Network) (health_url : string)
    (timeout start_time now : Z) : option (result unit * Z) :=
  match fuel with
  | O => None
  | S fuel' =>
      match loop_body net health_url timeout start_time now with
      | (Returns, now) => Some (Ok (), now)
      | (Raises e, now) => Some (Raise e, now)
      | (Again, now) => wait_loop fuel' net health_url timeout start_time now
      end
  end.

Definition _wait_for_http_200 (fuel : nat) (net : Network) (health_url : string)
    (timeout now : Z) : option (result unit * Z) :=
  let start_time := now in
  wait_loop fuel net health_url timeout start_time now.

Record _ServerInfo : Set := {
  managed : bool;
  hostname : string;
  base_port : Z;
  fixture_port : Z;
}.

Definition wait_until_healthy (fuel : nat) (net : Network) (self : _ServerInfo)
    (timeout now : Z) : option (result unit * Z) :=
  let app_health_url :=
    "http://" +:+ hostname self +:+ ":" +:+ pretty (base_port self) +:+ "/ready" in
  let fixtures_health_url :=
    "http://" +:+ hostname self +:+ ":" +:+ pretty (fixture_port self) +:+ "/health" in
  match _wait_for_http_200 fuel net app_health_url timeout now with
  | Some (Ok _, now) => _wait_for_http_200 fuel net fixtures_health_url timeout now
  | stopped => stopped
  end.

(** ** Vocabulary of the statements *)

(** The action kinds that have an entry in [_ACTION_CONFIG_KEYS]. *)
Definition known_action_types : gset ActionType :=
  {[ NOTIFICATION; GENERIC_WEBHOOK; NO_OP ]}.

(** The class that the wrapper field of the action's own kind is annotated
    with accepts the action. *)
Definition accepted `{ActionSchema} (obj : Action) : Prop :=
  match action_type obj with
  | NOTIFICATION => is_Ok (DoNotification_validate obj)
  | GENERIC_WEBHOOK => is_Ok (DoWebhook_validate obj)
  | NO_OP => is_Ok (DoNothing_validate obj)
  | QUEUE_JOB => True
  end.

(** A field of the wrapper that is not [None]. *)
Definition is_populated {A} (field : option A) : bool :=
  match field with Some _ => true | None => false end.

(** The action kinds whose field of the wrapper is populated, in the order
    the fields are declared. *)
Definition populated_kinds (c : InputActionConfig.t) : list ActionType :=
  (if is_populated (InputActionConfig.notification_action_input c)
   then [NOTIFICATION] else [])
  ++ (if is_populated (InputActionConfig.generic_webhook_action_input c)
      then [GENERIC_WEBHOOK] else [])
  ++ (if is_populated (InputActionConfig.no_op_action_input c)
      then [NO_OP] else []).

(** An error that tells of an unsupported action type, as opposed to the
    exception of a failed lookup in a table: read as widely as possible, any
    exception that is not a [LookupError]. *)
Definition is_configuration_error (e : exn) : bool :=
  negb (isinstance e LookupError).

(** An update payload without its identity: the create payload of the same
    content. *)
Definition as_create_input (p : UpdateFilterTriggerInput.t)
    : CreateFilterTriggerInput.t :=
  {| CreateFilterTriggerInput.name := UpdateFilterTriggerInput.name p;
     CreateFilterTriggerInput.description := UpdateFilterTriggerInput.description p;
     CreateFilterTriggerInput.enabled := UpdateFilterTriggerInput.enabled p;
     CreateFilterTriggerInput.scope_type := UpdateFilterTriggerInput.scope_type p;
     CreateFilterTriggerInput.scope_id := UpdateFilterTriggerInput.scope_id p;
     CreateFilterTriggerInput.triggering_event_type :=
       UpdateFilterTriggerInput.triggering_event_type p;
     CreateFilterTriggerInput.event_filter := UpdateFilterTriggerInput.event_filter p;
     CreateFilterTriggerInput.triggered_action_type :=
       UpdateFilterTriggerInput.triggered_action_type p;
     CreateFilterTriggerInput.triggered_action_config :=
       UpdateFilterTriggerInput.triggered_action_config p |}.

(** The wrapper that holds, in the field of the kind of the action and in
    no other field, what the class of that field makes of the action. *)
Definition wrapped_as `{ActionSchema} (obj : Action) (config : InputActionConfig.t)
    : Prop :=
  match action_type obj with
  | NOTIFICATION =>
      ∃ a, DoNotification_validate obj = Ok a
           ∧ config = InputActionConfig.mk (Some a) None None
  | GENERIC_WEBHOOK =>
      ∃ a, DoWebhook_validate obj = Ok a
           ∧ config = InputActionConfig.mk None (Some a) None
  | NO_OP =>
      ∃ a, DoNothing_validate obj = Ok a
           ∧ config = InputActionConfig.mk None None (Some a)
  | QUEUE_JOB => False
  end.

(** A fully defined automation with the content of a saved one: the same
    name, description and enabled flag, a scope of the same type and id, an
    event of the same type whose filter is the filter of the saved one in
    the unwrapped shape, and an action of the same kind. *)
Definition same_content (prepared : PreparedAutomation.t) (a : Automation.t) : Prop :=
  PreparedAutomation.name prepared = Automation.name a
  ∧ PreparedAutomation.description prepared = Automation.description a
  ∧ PreparedAutomation.enabled prepared = Automation.enabled a
  ∧ Scope.scope_type (PreparedAutomation.scope prepared)
    = Scope.scope_type (Automation.scope a)
  ∧ Scope.id (PreparedAutomation.scope prepared) = Scope.id (Automation.scope a)
  ∧ Event.event_type (PreparedAutomation.event prepared)
    = Event.event_type (Automation.event a)
  ∧ Event.filter (PreparedAutomation.event prepared)
    = unwrapped_filter (Event.filter (Automation.event a))
  ∧ action_type (PreparedAutomation.action prepared)
    = action_type (Automation.action a).

(** An update payload with three of its fields replaced, each of them
    optionally. *)
Definition with_overrides (p : UpdateFilterTriggerInput.t) (name : option string)
    (description : option string) (enabled : option bool)
    : UpdateFilterTriggerInput.t :=
  {| UpdateFilterTriggerInput.id := UpdateFilterTriggerInput.id p;
     UpdateFilterTriggerInput.name := default (UpdateFilterTriggerInput.name p) name;
     UpdateFilterTriggerInput.description :=
       from_option Some (UpdateFilterTriggerInput.description p) description;
     UpdateFilterTriggerInput.enabled :=
       default (UpdateFilterTriggerInput.enabled p) enabled;
     UpdateFilterTriggerInput.scope_type := UpdateFilterTriggerInput.scope_type p;
     UpdateFilterTriggerInput.scope_id := UpdateFilterTriggerInput.scope_id p;
     UpdateFilterTriggerInput.triggering_event_type :=
       UpdateFilterTriggerInput.triggering_event_type p;
     UpdateFilterTriggerInput.event_filter := UpdateFilterTriggerInput.event_filter p;
     UpdateFilterTriggerInput.triggered_action_type :=
       UpdateFilterTriggerInput.triggered_action_type p;
     UpdateFilterTriggerInput.triggered_action_config :=
       UpdateFilterTriggerInput.triggered_action_config p |}.

(** The keyword arguments that override [name], [description] and [enabled],
    each of them optionally, and nothing else. *)
Definition overrides (name : option string) (description : option string)
    (enabled : option bool) : AutomationParams.t :=
  AutomationParams.mk name description enabled None None None.

(** The per-record decoding of [convert_objects]. *)
Definition decode `{ListingSchema} (obj : TriggerFields) : result Automation.t :=
  Automation_model_validate_json (TriggerFields_model_dump_json obj).

(** The [requests.get] call of the loop, when the clock reads [now]: its
    outcome and the time it takes. *)
Definition poll (net : Network) (health_url : string)
    (timeout start_time now : Z) : http_outcome * Z :=
  net health_url (Z.max 1000 (time_remaining timeout start_time now)) now.

(** Assumptions on the network of a health-check wait: calls take no
    negative time; the polled URL never answers HTTP 200; the polls raise
    nothing but connection errors and timeouts. *)
Definition time_passes (net : Network) : Prop :=
  ∀ url t now, 0 ≤ (net url t now).2.

Definition never_healthy (net : Network) (url : string) : Prop :=
  ∀ t now, (net url t now).1 ≠ Response 200.

Definition raises_connection_errors_or_timeouts (net : Network) (url : string)
    : Prop :=
  ∀ t now e, (net url t now).1 = RequestRaises e →
    isinstance_any e [requests_ConnectionError; requests_Timeout] = true.

(** ** Instances for the examples *)

(** Validation that accepts the instances of the expected class and nothing
    else, and that requires the name, the event and the action of an
    unsaved automation; the scope defaults to the scope of the event. *)
Definition example_schema : ActionSchema := {|
  DoNotification_validate obj :=
    match obj with
    | InputNotification a => Ok a
    | _ => Raise (Exn ValidationError "DoNotification")
    end;
  DoWebhook_validate obj :=
    match obj with
    | InputWebhook a => Ok a
    | _ => Raise (Exn ValidationError "DoWebhook")
    end;
  DoNothing_validate obj :=
    match obj with
    | InputNoOp a => Ok a
    | _ => Raise (Exn ValidationError "DoNothing")
    end;
  PreparedAutomation_model_validate obj :=
    match NewAutomation.name obj, NewAutomation.event obj, NewAutomation.action obj with
    | Some name, Some event, Some action =>
        Ok {| PreparedAutomation.name := name;
              PreparedAutomation.description := NewAutomation.description obj;
              PreparedAutomation.enabled := default true (NewAutomation.enabled obj);
              PreparedAutomation.scope :=
                default (Event.scope event) (NewAutomation.scope obj);
              PreparedAutomation.event := event;
              PreparedAutomation.action := action |}
    | _, _, _ => Raise (Exn ValidationError "PreparedAutomation")
    end;
|}.

Definition example_project : Scope.t := Scope.mk PROJECT "UHJvamVjdDox" "my-project".

Definition example_filter : Filter :=
  And [FilterExpr "display_name" "$contains" "my-run"].

Definition example_event : Event.t :=
  Event.mk CREATE_ARTIFACT example_project example_filter.

Definition example_webhook : Action :=
  InputWebhook (DoWebhook.mk "SW50ZWdyYXRpb246MQ==" "{}").

(** [event >> action], not yet named. *)
Definition example_new : NewAutomation.t :=
  NewAutomation.mk None None None None (Some example_event) (Some example_webhook).

(** A saved automation as a read decodes it: the filter is wrapped. *)
Definition example_saved : Automation.t :=
  {| Automation.id := "VHJpZ2dlcjox";
     Automation.name := "test-automation";
     Automation.description := Some "original description";
     Automation.enabled := true;
     Automation.scope := example_project;
     Automation.event :=
       Event.mk CREATE_ARTIFACT example_project (_WrappedEventFilter example_filter);
     Automation.action := example_webhook |}.

(** A saved automation with a Launch-job action. *)
Definition example_saved_launch : Automation.t :=
  {| Automation.id := "VHJpZ2dlcjoy";
     Automation.name := "launch-automation";
     Automation.description := None;
     Automation.enabled := true;
     Automation.scope := example_project;
     Automation.event := example_event;
     Automation.action := SavedAction QUEUE_JOB ∅ |}.

(** Validation as the comment in [prepare_action_input] describes it: the
    class of a wrapper field takes an input action of its class as it is and
    converts a saved action of its kind into the input action of the same
    fields; a fully defined automation has an input action, so that its
    validation converts a saved action likewise and refuses a Launch-job
    action. *)
Definition saved_field (fields : gmap string string) (key : string) : result string :=
  match fields !! key with
  | Some value => Ok value
  | None => Raise (Exn ValidationError key)
  end.

Definition convert_notification (obj : Action) : result DoNotification.t :=
  match obj with
  | InputNotification a => Ok a
  | SavedAction NOTIFICATION fields =>
      integration_id ← saved_field fields "integration_id";
      title ← saved_field fields "title";
      message ← saved_field fields "message";
      severity ← saved_field fields "severity";
      mret (DoNotification.mk integration_id title message severity)
  | _ => Raise (Exn ValidationError "DoNotification")
  end.

Definition convert_webhook (obj : Action) : result DoWebhook.t :=
  match obj with
  | InputWebhook a => Ok a
  | SavedAction GENERIC_WEBHOOK fields =>
      integration_id ← saved_field fields "integration_id";
      request_payload ← saved_field fields "request_payload";
      mret (DoWebhook.mk integration_id request_payload)
  | _ => Raise (Exn ValidationError "DoWebhook")
  end.

Definition convert_nothing (obj : Action) : result DoNothing.t :=
  match obj with
  | InputNoOp a => Ok a
  | SavedAction NO_OP _ => Ok (DoNothing.mk true)
  | _ => Raise (Exn ValidationError "DoNothing")
  end.

Definition convert_action (obj : Action) : result Action :=
  match action_type obj with
  | NOTIFICATION => InputNotification <$> convert_notification obj
  | GENERIC_WEBHOOK => InputWebhook <$> convert_webhook obj
  | NO_OP => InputNoOp <$> convert_nothing obj
  | QUEUE_JOB => Raise (Exn ValidationError "PreparedAutomation")
  end.

Definition example_conversion : ActionSchema := {|
  DoNotification_validate := convert_notification;
  DoWebhook_validate := convert_webhook;
  DoNothing_validate := convert_nothing;
  PreparedAutomation_model_validate obj :=
    match NewAutomation.name obj, NewAutomation.event obj, NewAutomation.action obj with
    | Some name, Some event, Some action =>
        action ← convert_action action;
        mret {| PreparedAutomation.name := name;
                PreparedAutomation.description := NewAutomation.description obj;
                PreparedAutomation.enabled := default true (NewAutomation.enabled obj);
                PreparedAutomation.scope :=
                  default (Event.scope event) (NewAutomation.scope obj);
                PreparedAutomation.event := event;
                PreparedAutomation.action := action |}
    | _, _, _ => Raise (Exn ValidationError "PreparedAutomation")
    end;
|}.

(** A saved automation as a read decodes it: the filter is wrapped and the
    action is a saved action, here the saved form of [example_webhook]. *)
Definition example_read : Automation.t :=
  {| Automation.id := "VHJpZ2dlcjox";
     Automation.name := "test-automation";
     Automation.description := Some "original description";
     Automation.enabled := true;
     Automation.scope := example_project;
     Automation.event :=
       Event.mk CREATE_ARTIFACT example_project (_WrappedEventFilter example_filter);
     Automation.action :=
       SavedAction GENERIC_WEBHOOK
         {[ "integration_id" := "SW50ZWdyYXRpb246MQ==";
            "request_payload" := "{}" ]} |}.

(** A page validator that follows the page shape of the spec, and a record
    decoder that reads the name of the trigger: the serialisation of a record
    is its name, and a name that is not empty decodes into the saved
    automation of that name. *)
Definition example_page_info (j : json) : option PageInfoFields :=
  match j with
  | JDict d =>
      match d !! "hasNextPage", d !! "endCursor" with
      | Some (JBool b), Some (JStr c) =>
          Some {| has_next_page := b; end_cursor := Some c |}
      | Some (JBool b), Some JNull => Some {| has_next_page := b; end_cursor := None |}
      | _, _ => None
      end
  | _ => None
  end.

Definition example_edge (j : json) : option ProjectConnectionFieldsEdges :=
  match j with
  | JDict d =>
      match d !! "node" with
      | Some (JDict n) =>
          match n !! "triggers" with
          | Some (JList ts) => Some {| node := {| triggers := ts |} |}
          | _ => None
          end
      | _ => None
      end
  | _ => None
  end.

Definition example_page_validate (j : json) : result ProjectConnectionFields :=
  match j with
  | JDict d =>
      match d !! "pageInfo" ≫= example_page_info, d !! "edges" with
      | Some info, Some (JList es) =>
          match mapM example_edge es with
          | Some edges => Ok {| page_info := info; edges := edges |}
          | None => Raise (Exn ValidationError "ProjectConnectionFields")
          end
      | _, _ => Raise (Exn ValidationError "ProjectConnectionFields")
      end
  | _ => Raise (Exn ValidationError "ProjectConnectionFields")
  end.

Definition example_listing : ListingSchema := {|
  ProjectConnectionFields_model_validate := example_page_validate;
  TriggerFields_model_dump_json obj :=
    match obj with
    | JDict d => match d !! "name" with Some (JStr s) => s | _ => "" end
    | _ => ""
    end;
  Automation_model_validate_json s :=
    if bool_decide (s = "") then Raise (Exn ValidationError "Automation")
    else Ok {| Automation.id := Automation.id example_saved;
               Automation.name := s;
               Automation.description := Automation.description example_saved;
               Automation.enabled := Automation.enabled example_saved;
               Automation.scope := Automation.scope example_saved;
               Automation.event := Automation.event example_saved;
               Automation.action := Automation.action example_saved |};
|}.

Definition example_trigger (name : string) : TriggerFields :=
  JDict {[ "name" := JStr name ]}.

Definition example_project_edge (names : list string) : json :=
  JDict {[ "node" := JDict {[ "triggers" := JList (example_trigger <$> names) ]} ]}.

(** A final page: two projects, with two and with one trigger. *)
Definition example_last_page : json :=
  JDict {[ "searchScope" := JDict {[ "projects" := JDict
    {[ "pageInfo" := JDict {[ "hasNextPage" := JBool false;
                              "endCursor" := JStr "Y3Vyc29yOjI=" ]};
       "edges" := JList [example_project_edge ["automation-0"; "automation-1"];
                         example_project_edge ["automation-2"]] ]} ]} ]}.

(** A page of three trigger records, the second of which has no name. *)
Definition example_nameless_page : json :=
  JDict {[ "searchScope" := JDict {[ "projects" := JDict
    {[ "pageInfo" := JDict {[ "hasNextPage" := JBool false;
                              "endCursor" := JStr "Y3Vyc29yOjI=" ]};
       "edges" := JList [example_project_edge ["automation-0"; ""; "automation-2"]]
    ]} ]} ]}.

(** A response for an entity that does not exist: the scope is [null]. *)
Definition example_null_scope : json := JDict {[ "searchScope" := JNull ]}.

(** Networks for the health-check examples.  On the first, the server
    refuses connections (each refusal taking 500 ms) until the clock reads
    1.5 s, and from then on answers HTTP 200 after 800 ms.  On the second it
    refuses connections for ever. *)
Definition example_slow_start : Network := λ url t now,
  if bool_decide (now < 1500) then
    (RequestRaises (Exn requests_ConnectionError "Connection refused"), 500)
  else (Response 200, 800).

Definition example_down : Network := λ url t now,
  (RequestRaises (Exn requests_ConnectionError "Connection refused"), 3).

(** A client that answers every request with the final page, and the
    paginator that has fetched it. *)
Definition example_client : _Client := λ _ _, Ok example_last_page.

Definition example_fetched_page : ProjectConnectionFields :=
  {| page_info := {| has_next_page := false; end_cursor := Some "Y3Vyc29yOjI=" |};
     edges :=
       [ {| node :=
              {| triggers := example_trigger <$> ["automation-0"; "automation-1"] |} |};
         {| node := {| triggers := example_trigger <$> ["automation-2"] |} |} ] |}.

Definition example_fetched : Paginator :=
  set_last_response (AutomationsByEntity example_client ∅ 50) example_fetched_page.

Definition example_server : _ServerInfo :=
  {| managed := true; hostname := "localhost";
     base_port := 8080; fixture_port := 9015 |}.

(** ** Further code of the same files *)

(** The keyword arguments [{**first, **second}]: a key of [second] overrides
    the same key of [first]. *)
Definition AutomationParams_merge (first second : AutomationParams.t)
    : AutomationParams.t :=
  {| AutomationParams.name :=
       from_option Some (AutomationParams.name first) (AutomationParams.name second);
     AutomationParams.description :=
       from_option Some (AutomationParams.description first)
         (AutomationParams.description second);
     AutomationParams.enabled :=
       from_option Some (AutomationParams.enabled first)
         (AutomationParams.enabled second);
     AutomationParams.scope :=
       from_option Some (AutomationParams.scope first) (AutomationParams.scope second);
     AutomationParams.event :=
       from_option Some (AutomationParams.event first) (AutomationParams.event second);
     AutomationParams.action :=
       from_option Some (AutomationParams.action first)
         (AutomationParams.action second) |}.

(** An [ApiRequest] message, as far as [ServiceApi] touches it: its [id]
    field, which is assigned, and the rest of the message, which is not
    read. *)
Record ApiRequest : Set := {
  request_id : string;
  request_body : string;
}.

(** The assignment [request.id = api_id] *)
Definition set_request_id (request : ApiRequest) (api_id : string) : ApiRequest :=
  {| request_id := api_id; request_body := request_body request |}.

(** [self.send_api_request(request, timeout)], where [api_request conn request
    timeout] is what [conn.api_request(request, timeout=timeout)] returns or
    raises.  The result comes with the attributes of [self] and with the
    request message, both of which the call may have assigned to. *)
Definition send_api_request {Timeout ApiResponse : Type}
    (ensure_service : result ServiceConnection)
    (api_request : ServiceConnection → ApiRequest → Timeout → result ApiResponse)
    (self : ServiceApi) (request : ApiRequest) (timeout : Timeout)
    : result ApiResponse * ServiceApi * ApiRequest :=
  match _get_service_connection ensure_service self with
  | (Ok conn, self) =>
      let request := set_request_id request (_api_id self) in
      (api_request conn request timeout, self, request)
  | (Raise e, self) => (Raise e, self, request)
  end.

(** The state of a [ServiceApi] after a series of calls of
    [_get_service_connection], given what [ensure_service] returns or raises
    at each of them. *)
Definition after_calls (self : ServiceApi)
    (ensure_service : list (result ServiceConnection)) : ServiceApi :=
  foldl (λ self es, (_get_service_connection es self).2) self ensure_service.

(** What holds of a [ServiceApi] whatever calls were made on it: a registered
    finalizer is for the connection and for the api id that the requests use,
    and without a connection nothing is registered. *)
Definition finalizer_matches (self : ServiceApi) : Prop :=
  match finalizer self with
  | Some (connection, api_id) =>
      is_Some connection
      ∧ connection = _service_connection self
      ∧ api_id = _api_id self
  | None => True
  end
  ∧ (_service_connection self = None → finalizer self = None).

(** A connection whose init request is answered with the id [api-1], and one
    whose init request fails. *)
Definition example_connection : ServiceConnection :=
  {| api_init_request := λ _, Ok "api-1"; api_cleanup_request := λ _, Ok () |}.

Definition example_broken_connection : ServiceConnection :=
  {| api_init_request := λ _, Raise (Exn RuntimeError "init failed");
     api_cleanup_request := λ _, Ok () |}.

(** The two URLs that [wait_until_healthy] polls. *)
Definition app_health_url (self : _ServerInfo) : string :=
  "http://" +:+ hostname self +:+ ":" +:+ pretty (base_port self) +:+ "/ready".

Definition fixtures_health_url (self : _ServerInfo) : string :=
  "http://" +:+ hostname self +:+ ":" +:+ pretty (fixture_port self) +:+ "/health".

(** A server that does not answer: every request ends with a read timeout,
    after the time it was given. *)
Definition example_silent : Network := λ url t now,
  (RequestRaises (Exn requests_ReadTimeout "Read timed out."), t).

(** *** The state file of [tools/local_wandb_server.py] and its commands

    What the commands print with [_echo_good], [_echo_info], [_echo_bad] and
    [traceback.print_exception] goes to the standard error stream and is not
    part of the model. *)

(** A Python [dict] with string keys, in insertion order. *)
Fixpoint dict_get {V} (d : list (string * V)) (key : string) : option V :=
  match d with
  | [] => None
  | (k, v) :: d' => if bool_decide (k = key) then Some v else dict_get d' key
  end.

(** [d[key] = value]: an existing key keeps its place. *)
Fixpoint dict_set {V} (d : list (string * V)) (key : string) (value : V)
    : list (string * V) :=
  match d with
  | [] => [(key, value)]
  | (k, v) :: d' =>
      if bool_decide (k = key) then (k, value) :: d'
      else (k, v) :: dict_set d' key value
  end.

(** [d.pop(key, None)]: the value that was removed, if any, and the rest. *)
Definition dict_pop {V} (d : list (string * V)) (key : string)
    : option V * list (string * V) :=
  (dict_get d key, filter (λ kv, kv.1 ≠ key) d).

(** [list(d.keys())] *)
Definition dict_keys {V} (d : list (string * V)) : list string := d.*1.

(** [class _InfoFile(pydantic.BaseModel)] *)
Record _InfoFile : Set := { servers : list (string * _ServerInfo) }.

(** pydantic's JSON reading and writing of [_InfoFile]. *)
Class InfoFileCodec : Type := {
  _InfoFile_model_validate_json : string → result _InfoFile;
  _InfoFile_model_dump_json : _InfoFile → string;
}.

(** How a command, or the body of a [with] statement, ends: it runs to its
    end, with a value; it calls [sys.exit]; or an exception leaves it. *)
Inductive ended (A : Type) : Type :=
| Completed (a : A)
| SysExit (code : Z)
| Uncaught (e : exn).
Arguments Completed {A} a.
Arguments SysExit {A} code.
Arguments Uncaught {A} e.

(** The part of [_info_file] before the [yield]: the state read from the
    content of the state file. *)
Definition read_info_file `{InfoFileCodec} (content : string) : result _InfoFile :=
  if bool_decide (content = "") then Ok {| servers := [] |}
  else
    try_except (_InfoFile_model_validate_json content) [Exception]
      (λ e, Ok {| servers := [] |}).

(** The part of [_info_file] after the [yield], for a body that ended as
    given with the state as given: the content of the file is rewritten when
    the body ran to its end, and only then, since the [yield] is not inside
    a [try] statement. *)
Definition _info_file_exit `{InfoFileCodec} {A W : Type} (content : string)
    (r : ended A * _InfoFile * W) : ended A * string * W :=
  match r with
  | (Completed a, state, w) => (Completed a, _InfoFile_model_dump_json state, w)
  | (SysExit code, _, w) => (SysExit code, content, w)
  | (Uncaught e, _, w) => (Uncaught e, content, w)
  end.

(** [with _info_file() as info: body], on a state file of the given content
    and in a world [w] that the body may change.  The body returns the state
    as it has mutated it. *)
Definition _info_file `{InfoFileCodec} {A W : Type}
    (body : _InfoFile → W → ended A * _InfoFile * W) (content : string) (w : W)
    : ended A * string * W :=
  match read_info_file content with
  | Ok state => _info_file_exit content (body state w)
  | Raise e => (Uncaught e, content, w)
  end.

(** One turn of the [for name in names] loop of [stop]: the flag [all_good],
    the state and the names [docker rm -f] was run for, oldest first, before
    and after the turn.  The clause [except Exception] catches every
    exception of the model. *)
Definition stop_turn (_stop_container : string → result unit)
    (st : bool * _InfoFile * list string) (name : string)
    : bool * _InfoFile * list string :=
  let '(all_good, info, removed) := st in
  match dict_pop (servers info) name with
  | (None, rest) => (false, {| servers := rest |}, removed)
  | (Some server, rest) =>
      if negb (managed server) then (all_good, {| servers := rest |}, removed)
      else
        match _stop_container name with
        | Ok _ => (all_good, {| servers := rest |}, (removed ++ [name])%list)
        | Raise _ => (false, {| servers := rest |}, (removed ++ [name])%list)
        end
  end.

(** The names that [stop] goes through: the names given or, when none is
    given, the names of all servers of the state. *)
Definition names_to_stop (names : list string) (info : _InfoFile) : list string :=
  if bool_decide (names = []) then dict_keys (servers info) else names.

(** The body of the [with] statement of [stop]. *)
Definition stop_body (_stop_container : string → result unit) (names : list string)
    (info : _InfoFile) (removed : list string)
    : ended bool * _InfoFile * list string :=
  let names := names_to_stop names info in
  if bool_decide (names = []) then (SysExit 1, info, removed)
  else
    let '(all_good, info, removed) :=
      foldl (stop_turn _stop_container) (true, info, removed) names in
    (Completed all_good, info, removed).

(** The command [stop], where [_stop_container name] is what the call of
    that name returns or raises.  The result is how the command ends, the
    content of the state file, and the names [docker rm -f] was run for. *)
Definition stop `{InfoFileCodec} (_stop_container : string → result unit)
    (names : list string) (content : string) : ended unit * string * list string :=
  match _info_file (stop_body _stop_container names) content [] with
  | (Completed all_good, content, removed) =>
      (if negb all_good then SysExit 1 else Completed (), content, removed)
  | (SysExit code, content, removed) => (SysExit code, content, removed)
  | (Uncaught e, content, removed) => (Uncaught e, content, removed)
  end.

(** The body of the [with] statement of [_start_external]; the world is the
    clock, and the result is [None] when the fuel of a wait ran out. *)
Definition _start_external_body (fuel : nat) (net : Network) (name hostname : string)
    (base_port fixture_port : Z) (info : _InfoFile) (now : Z)
    : option (ended unit * _InfoFile * Z) :=
  if bool_decide (name ∈ dict_keys (servers info)) then Some (SysExit 1, info, now)
  else
    let server :=
      {| managed := false; hostname := hostname;
         base_port := base_port; fixture_port := fixture_port |} in
    let info := {| servers := dict_set (servers info) name server |} in
    match wait_until_healthy fuel net server 30 now with
    | Some (Ok _, now) => Some (Completed (), info, now)
    | Some (Raise e, now) =>
        if isinstance e TimeoutError then Some (SysExit 1, info, now)
        else Some (Uncaught e, info, now)
    | None => None
    end.

(** [_start_external(name, hostname, base_port, fixture_port)]: how it ends,
    the content of the state file and the clock reading. *)
Definition _start_external `{InfoFileCodec} (fuel : nat) (net : Network)
    (name hostname : string) (base_port fixture_port : Z) (content : string)
    (now : Z) : option (ended unit * string * Z) :=
  match read_info_file content with
  | Ok state =>
      _info_file_exit content
        <$> _start_external_body fuel net name hostname base_port fixture_port
              state now
  | Raise e => Some (Uncaught e, content, now)
  end.

(** The double quote, and [json.dumps] of the dictionary that [connect]
    prints. *)
Definition dquote : string := String (Ascii.ascii_of_nat 34) EmptyString.

Definition ports_json (server : _ServerInfo) : string :=
  "{" +:+ dquote +:+ "base_port" +:+ dquote +:+ ": " +:+ pretty (base_port server)
  +:+ ", " +:+ dquote +:+ "fixture_port" +:+ dquote +:+ ": "
  +:+ pretty (fixture_port server) +:+ "}".

(** The command [connect]: how it ends, the content of the state file, the
    clock reading and the lines printed on the standard output. *)
Definition connect `{InfoFileCodec} (fuel : nat) (net : Network) (name : string)
    (content : string) (now : Z) : option (ended unit * string * Z * list string) :=
  match _info_file
          (λ info w, (Completed (dict_get (servers info) name), info, w))
          content () with
  | (Completed None, content, _) => Some (SysExit 1, content, now, [])
  | (Completed (Some server), content, _) =>
      match wait_until_healthy fuel net server 1 now with
      | Some (Ok _, now) => Some (Completed (), content, now, [ports_json server])
      | Some (Raise e, now) =>
          if isinstance e TimeoutError then Some (SysExit 1, content, now, [])
          else Some (Uncaught e, content, now, [])
      | None => None
      end
  | (SysExit code, content, _) => Some (SysExit code, content, now, [])
  | (Uncaught e, content, _) => Some (Uncaught e, content, now, [])
  end.

#[global] Instance _ServerInfo_eq_dec : EqDecision _ServerInfo.
Proof. solve_decision. Defined.

#[global] Instance _InfoFile_eq_dec : EqDecision _InfoFile.
Proof. solve_decision. Defined.

(** For the examples: a server that the script only connects to, three
    states, and a reading and writing of the state file that knows these
    three states by name. *)
Definition example_external : _ServerInfo :=
  {| managed := false; hostname := "localhost"; base_port := 8080;
     fixture_port := 9015 |}.

Definition example_state_managed : _InfoFile :=
  {| servers := [("wandb-local-testcontainer", example_server)] |}.

Definition example_state_both : _InfoFile :=
  {| servers := [("wandb-local-testcontainer", example_server);
                 ("external", example_external)] |}.

Definition example_contents : list (string * _InfoFile) :=
  [("<no servers>", {| servers := [] |});
   ("<managed>", example_state_managed);
   ("<managed, external>", example_state_both)].

Definition example_codec : InfoFileCodec := {|
  _InfoFile_model_validate_json content :=
    match dict_get example_contents content with
    | Some state => Ok state
    | None => Raise (Exn ValidationError "_InfoFile")
    end;
  _InfoFile_model_dump_json state :=
    match list_find (λ kv, kv.2 = state) example_contents with
    | Some (_, (content, _)) => content
    | None => "<other>"
    end;
|}.

(** A server that is healthy at once. *)
Definition example_up : Network := λ url t now, (Response 200, 20).

(** *** Finding the ports of the container

    The output of [docker port] is taken to be ASCII text. *)

(** The character classes [\d] and [\w] on ASCII characters, and the
    characters that are not a colon. *)
Definition is_digit (c : Ascii.ascii) : bool :=
  (48 <=? Ascii.nat_of_ascii c)%nat && (Ascii.nat_of_ascii c <=? 57)%nat.

Definition is_word (c : Ascii.ascii) : bool :=
  is_digit c
  || (65 <=? Ascii.nat_of_ascii c)%nat && (Ascii.nat_of_ascii c <=? 90)%nat
  || (97 <=? Ascii.nat_of_ascii c)%nat && (Ascii.nat_of_ascii c <=? 122)%nat
  || (Ascii.nat_of_ascii c =? 95)%nat.

Definition is_not_colon (c : Ascii.ascii) : bool :=
  negb (Ascii.nat_of_ascii c =? 58)%nat.

(** The characters at which [str.splitlines] ends a line: line feed,
    carriage return, vertical tab, form feed, the three separators and next
    line. *)
Definition is_line_boundary (c : Ascii.ascii) : bool :=
  bool_decide (Ascii.nat_of_ascii c ∈ [10; 13; 11; 12; 28; 29; 30; 133]%nat).

(** The longest prefix of a string whose characters are in a class, and the
    rest of the string: how a greedy repetition of the class matches. *)
Fixpoint span (p : Ascii.ascii → bool) (s : string) : string * string :=
  match s with
  | String c s' =>
      if p c then let '(taken, rest) := span p s' in (String c taken, rest)
      else ("", s)
  | EmptyString => ("", "")
  end.

(** The rest of a string after a literal prefix, if it begins with it. *)
Fixpoint strip_prefix (prefix s : string) : option string :=
  match prefix, s with
  | EmptyString, _ => Some s
  | String a prefix', String b s' =>
      if bool_decide (a = b) then strip_prefix prefix' s' else None
  | String _ _, EmptyString => None
  end.

(** [s.splitlines()]: [current] is the line being read.  A carriage return
    followed by a line feed ends one line, and the end of the string ends a
    line only if the line is not empty. *)
Fixpoint splitlines_from (current s : string) : list string :=
  match s with
  | EmptyString => if bool_decide (current = "") then [] else [current]
  | String c s' =>
      if is_line_boundary c then
        current ::
          match s' with
          | String c' s'' =>
              if bool_decide (Ascii.nat_of_ascii c = 13 ∧ Ascii.nat_of_ascii c' = 10)%nat
              then splitlines_from "" s''
              else splitlines_from "" s'
          | EmptyString => splitlines_from "" s'
          end
      else splitlines_from (current +:+ String c "") s'
  end.

Definition splitlines (s : string) : list string := splitlines_from "" s.

(** [int(s)] for a string of decimal digits.  Python refuses a string of
    more than 4300 digits, which is not modelled. *)
Definition digit_value (c : Ascii.ascii) : Z := Z.of_nat (Ascii.nat_of_ascii c) - 48.

Fixpoint int_from (acc : Z) (s : string) : Z :=
  match s with
  | EmptyString => acc
  | String c s' => int_from (10 * acc + digit_value c) s'
  end.

Definition int (s : string) : Z := int_from 0 s.

(** [port_line_re.fullmatch(line)], for the pattern
    [(\d+)(\/\w+)? -> [^:]*:(\d+)]: the groups 1 and 3 of the match, if the
    line matches.  No backtracking is needed: what follows a repetition never
    begins with a character of the class that is repeated, so that each
    repetition can only match the longest prefix. *)
Definition port_line_re_fullmatch (line : string) : option (string * string) :=
  let '(group1, rest) := span is_digit line in
  if bool_decide (group1 = "") then None
  else
    let rest :=
      match rest with
      | String "/"%char rest' =>
          let '(word, rest'') := span is_word rest' in
          if bool_decide (word = "") then rest else rest''
      | _ => rest
      end in
    match strip_prefix " -> " rest with
    | Some rest =>
        match (span is_not_colon rest).2 with
        | String ":"%char rest =>
            let '(group3, rest) := span is_digit rest in
            if bool_decide (group3 = "") then None
            else if bool_decide (rest = "") then Some (group1, group3)
            else None
        | _ => None
        end
    | None => None
    end.

Module _WandbContainerPorts.
(** [class _WandbContainerPorts] *)
Record t : Set := mk { base_port : Z; fixture_port : Z }.
End _WandbContainerPorts.

(** [self.apply_ports(server)]: the server after the two assignments. *)
Definition apply_ports (self : _WandbContainerPorts.t) (server : _ServerInfo)
    : _ServerInfo :=
  {| managed := managed server; hostname := hostname server;
     base_port := _WandbContainerPorts.base_port self;
     fixture_port := _WandbContainerPorts.fixture_port self |}.

(** One turn of the loop of [_get_ports] over the lines: the variables
    [base_port] and [fixture_port] before and after it. *)
Definition _get_ports_line (ports : Z * Z) (line : string) : Z * Z :=
  match port_line_re_fullmatch line with
  | None => ports
  | Some (internal_port, external_port) =>
      if bool_decide (internal_port = "8080") then (int external_port, ports.2)
      else if bool_decide (internal_port = "9015") then (ports.1, int external_port)
      else ports
  end.

(** [_get_ports(name)], given the decoded output of [docker port name]. *)
Definition _get_ports (ports_str : string) : option _WandbContainerPorts.t :=
  let '(base_port, fixture_port) :=
    foldl _get_ports_line (0, 0) (splitlines ports_str) in
  if bool_decide (base_port = 0) then None
  else if bool_decide (fixture_port = 0) then None
  else Some (_WandbContainerPorts.mk base_port fixture_port).

(** What [subprocess.check_output(["docker", "port", name]).decode()] returns
    or raises when the clock reads [now], and the time it takes. *)
Definition DockerPort : Type := string → Z → result string * Z.

(** The [while] loop of [_get_ports_retrying], entered with the value of
    [ports] when the clock reads [now]: the value of [ports] after the loop,
    or the exception that left it, and the clock reading.  An instance of the
    data class is true, [None] is false, and [time.sleep(0.1)] takes a tenth
    of a second. *)
Fixpoint _get_ports_loop (fuel : nat) (docker_port : DockerPort) (name : string)
    (ports_start_time : Z) (ports : option _WandbContainerPorts.t) (now : Z)
    : option (result (option _WandbContainerPorts.t) * Z) :=
  match ports with
  | Some _ => Some (Ok ports, now)
  | None =>
      if bool_decide (now - ports_start_time < 1000) then
        match fuel with
        | O => None
        | S fuel' =>
            match docker_port name now with
            | (Ok ports_str, took) =>
                let ports := _get_ports ports_str in
                let now := now + took in
                _get_ports_loop fuel' docker_port name ports_start_time ports
                  (match ports with Some _ => now | None => now + 100 end)
            | (Raise e, took) => Some (Raise e, now + took)
            end
        end
      else Some (Ok ports, now)
  end.

(** [_get_ports_retrying(name)] *)
Definition _get_ports_retrying (fuel : nat) (docker_port : DockerPort) (name : string)
    (now : Z) : option (ended _WandbContainerPorts.t * Z) :=
  let ports_start_time := now in
  match _get_ports_loop fuel docker_port name ports_start_time None now with
  | Some (Ok (Some ports), now) => Some (Completed ports, now)
  | Some (Ok None, now) => Some (SysExit 1, now)
  | Some (Raise e, now) => Some (Uncaught e, now)
  | None => None
  end.

(** The answers given at the four prompts of [_start_container], the last
    one being one of the choices offered. *)
Record Prompts : Set := {
  registry : string;
  repository : string;
  tag : string;
  pull : string;
}.

(** The [command] of [_start_container]. *)
Definition docker_run_command (answers : Prompts) (name : string) : list string :=
  let docker_flags :=
    [ "--rm"; "--detach";
      "--pull"; pull answers;
      "-e"; "WANDB_ENABLE_TEST_CONTAINER=true";
      "--name"; name;
      "--volume"; name +:+ "-vol:/vol";
      "--publish"; "8080";
      "--publish"; "9015";
      "--platform"; "linux/amd64" ] in
  let image :=
    registry answers +:+ "/" +:+ repository answers +:+ ":" +:+ tag answers in
  (["docker"; "run"] ++ docker_flags ++ [image])%list.

(** What [subprocess.check_call(command, stdout=sys.stderr)] returns or
    raises when the clock reads [now], and the time it takes. *)
Definition CheckCall : Type := list string → Z → result unit * Z.

(** The clock reading and the commands run with [check_call], oldest first.
    The calls of [docker port], which are made with [check_output], are no
    part of this list: they are the questions put to [DockerPort]. *)
Definition World : Type := Z * list (list string).

(** [_start_container(name=name)] *)
Definition _start_container (fuel : nat) (answers : Prompts) (check_call : CheckCall)
    (docker_port : DockerPort) (name : string) (w : World)
    : option (ended _WandbContainerPorts.t * World) :=
  let '(now, ran) := w in
  let command := docker_run_command answers name in
  match check_call command now with
  | (Ok _, took) =>
      match _get_ports_retrying fuel docker_port name (now + took) with
      | Some (status, now) => Some (status, (now, (ran ++ [command])%list))
      | None => None
      end
  | (Raise e, took) => Some (Uncaught e, (now + took, (ran ++ [command])%list))
  end.

(** The [if prev := info.servers.get(name)] statement of
    [_start_interactively]: it runs to its end when there is no such server
    or the wait for it times out.  An instance of the model is true. *)
Definition check_previous (fuel : nat) (net : Network) (name : string)
    (info : _InfoFile) (now : Z) : option (ended unit * Z) :=
  match dict_get (servers info) name with
  | Some prev =>
      match wait_until_healthy fuel net prev 1 now with
      | Some (Ok _, now) => Some (SysExit 0, now)
      | Some (Raise e, now) =>
          if isinstance e TimeoutError then Some (Completed (), now)
          else Some (Uncaught e, now)
      | None => None
      end
  | None => Some (Completed (), now)
  end.

(** The body of the [with] statement of [_start_interactively].  The
    dictionary holds the object [server] itself, so that [apply_ports] also
    changes the entry of the name. *)
Definition _start_interactively_body (fuel : nat) (net : Network)
    (answers : Prompts) (check_call : CheckCall) (docker_port : DockerPort)
    (name : string) (info : _InfoFile) (w : World)
    : option (ended unit * _InfoFile * World) :=
  let '(now, ran) := w in
  match check_previous fuel net name info now with
  | Some (Completed _, now) =>
      let server :=
        {| managed := true; hostname := "localhost";
           base_port := 0; fixture_port := 0 |} in
      let info := {| servers := dict_set (servers info) name server |} in
      match _start_container fuel answers check_call docker_port name (now, ran) with
      | Some (Completed ports, (now, ran)) =>
          let server := apply_ports ports server in
          let info := {| servers := dict_set (servers info) name server |} in
          match wait_until_healthy fuel net server 30 now with
          | Some (Ok _, now) => Some (Completed (), info, (now, ran))
          | Some (Raise e, now) =>
              if isinstance e TimeoutError then Some (SysExit 1, info, (now, ran))
              else Some (Uncaught e, info, (now, ran))
          | None => None
          end
      | Some (SysExit code, w) => Some (SysExit code, info, w)
      | Some (Uncaught e, w) => Some (Uncaught e, info, w)
      | None => None
      end
  | Some (SysExit code, now) => Some (SysExit code, info, (now, ran))
  | Some (Uncaught e, now) => Some (Uncaught e, info, (now, ran))
  | None => None
  end.

(** [_start_interactively(name=name)]: how it ends, the content of the state
    file, the clock reading and the commands run. *)
Definition _start_interactively `{InfoFileCodec} (fuel : nat) (net : Network)
    (answers : Prompts) (check_call : CheckCall) (docker_port : DockerPort)
    (name content : string) (now : Z) : option (ended unit * string * World) :=
  match read_info_file content with
  | Ok state =>
      _info_file_exit content
        <$> _start_interactively_body fuel net answers check_call docker_port
              name state (now, [])
  | Raise e => Some (Uncaught e, content, (now, []))
  end.

(** The line feed, lines that each end with one, and what [docker port]
    prints for a container whose ports 8080 and 9015 are published on all
    addresses: a line for IPv4 and a line for IPv6 for each. *)
Definition LF : string := String (Ascii.ascii_of_nat 10) EmptyString.

Definition unlines (lines : list string) : string :=
  foldr (λ line rest, line +:+ LF +:+ rest) "" lines.

Definition docker_port_output (base_port fixture_port : Z) : string :=
  unlines [ "8080/tcp -> 0.0.0.0:" +:+ pretty base_port;
            "8080/tcp -> [::]:" +:+ pretty base_port;
            "9015/tcp -> 0.0.0.0:" +:+ pretty fixture_port;
            "9015/tcp -> [::]:" +:+ pretty fixture_port ].

(** Whether every character of a string is in a class. *)
Fixpoint all_chars (p : Ascii.ascii → bool) (s : string) : bool :=
  match s with
  | EmptyString => true
  | String c s' => p c && all_chars p s'
  end.

(** A line of the output of [docker port] matches the pattern with the
    internal port [internal] and an external port that reads as [port]. *)
Definition published (ports_str internal : string) (port : Z) : Prop :=
  ∃ line external : string,
    line ∈ splitlines ports_str
    ∧ port_line_re_fullmatch line = Some (internal, external)
    ∧ port = int external.

(** For the examples: a container whose ports are published a quarter of a
    second after the first question, default answers at the prompts, and a
    [docker run] that takes half a second. *)
Definition example_docker_port : DockerPort :=
  λ name now,
    if bool_decide (now < 750) then (Ok "", 30)
    else (Ok (docker_port_output 8080 9015), 30).

Definition example_answers : Prompts :=
  {| registry := "us-central1-docker.pkg.dev";
     repository := "wandb-production/images/local-testcontainer";
     tag := "master";
     pull := "always" |}.

Definition example_check_call : CheckCall := λ command now, (Ok (), 500).

#[local] Set Warnings "-clear-no-such-hyp".

(** * Theorems *)

(** ** Exceptions and the [result] monad *)

Lemma isinstance_Exception (e : exn) : isinstance e Exception = true.
Proof. destruct e as [[] msg]; reflexivity. Qed.

Lemma bind_Ok_inv {A B} (m : result A) (f : A → result B) (b : B) :
  m ≫= f = Ok b → ∃ a, m = Ok a ∧ f a = Ok b.
Proof. destruct m as [a|e]; [eauto | discriminate]. Qed.

Lemma fmap_Ok_inv {A B} (f : A → B) (m : result A) (b : B) :
  f <$> m = Ok b → ∃ a, m = Ok a ∧ b = f a.
Proof. destruct m as [a|e]; intros [=]; eauto. Qed.

Lemma for_each_Ok {A B} (f : A → result B) (xs : list A) (ys : list B) :
  for_each f xs = Ok ys ↔ Forall2 (λ x y, f x = Ok y) xs ys.
Proof.
  revert ys. induction xs as [|x xs IH]; intros ys; simpl.
  - split; [intros [= <-]; constructor | by inversion 1].
  - split.
    + intros (y & Hy & Hrest)%bind_Ok_inv.
      apply bind_Ok_inv in Hrest as (ys' & Hys' & [= <-]).
      constructor; [done | by apply IH].
    + inversion 1 as [|? y ? ys' Hy Hys']; subst.
      apply IH in Hys'. by rewrite Hy, Hys'.
Qed.

(** ** The input preparers *)

Lemma lookup_ACTION_CONFIG_KEYS (t : ActionType) :
  _ACTION_CONFIG_KEYS !! t =
    match t with
    | QUEUE_JOB => None
    | NOTIFICATION => Some "notification_action_input"
    | GENERIC_WEBHOOK => Some "generic_webhook_action_input"
    | NO_OP => Some "no_op_action_input"
    end.
Proof. by destruct t. Qed.

Lemma dom_ACTION_CONFIG_KEYS : dom _ACTION_CONFIG_KEYS = known_action_types.
Proof.
  apply set_eq; intros t. rewrite elem_of_dom, lookup_ACTION_CONFIG_KEYS.
  unfold known_action_types, is_Some. destruct t; set_solver.
Qed.

Lemma known_action_type_cases (t : ActionType) :
  t ∈ known_action_types ↔ t = NOTIFICATION ∨ t = GENERIC_WEBHOOK ∨ t = NO_OP.
Proof. unfold known_action_types. set_solver. Qed.

(** What [populated_kinds c = [t]] says, field by field. *)
Lemma populated_kinds_one (c : InputActionConfig.t) (t : ActionType) :
  populated_kinds c = [t] ↔
    match t with
    | NOTIFICATION =>
        is_Some (InputActionConfig.notification_action_input c)
        ∧ InputActionConfig.generic_webhook_action_input c = None
        ∧ InputActionConfig.no_op_action_input c = None
    | GENERIC_WEBHOOK =>
        InputActionConfig.notification_action_input c = None
        ∧ is_Some (InputActionConfig.generic_webhook_action_input c)
        ∧ InputActionConfig.no_op_action_input c = None
    | NO_OP =>
        InputActionConfig.notification_action_input c = None
        ∧ InputActionConfig.generic_webhook_action_input c = None
        ∧ is_Some (InputActionConfig.no_op_action_input c)
    | QUEUE_JOB => False
    end.
Proof.
  destruct c as [[n|] [w|] [z|]], t; unfold populated_kinds; simpl;
    split; try discriminate; try done;
    intros (Hn & Hw & Hz); try discriminate; by repeat match goal with
    | Hnone : is_Some None |- _ => destruct Hnone as [? [=]]
    end.
Qed.

Section Preparers.
Context `{ActionSchema}.

Lemma prepare_action_input_unknown (obj : Action) :
  action_type obj ∉ known_action_types →
  prepare_action_input obj = Raise (Exn KeyError (ActionType_value (action_type obj))).
Proof.
  intros Hunknown. unfold prepare_action_input, dict_getitem.
  rewrite lookup_ACTION_CONFIG_KEYS.
  destruct (action_type obj); try done; exfalso; apply Hunknown;
    unfold known_action_types; set_solver.
Qed.

Lemma prepare_action_input_known (obj : Action) :
  action_type obj ∈ known_action_types →
  accepted obj →
  ∃ config, prepare_action_input obj = Ok config
            ∧ populated_kinds config = [action_type obj].
Proof.
  intros Hknown Hacc. unfold prepare_action_input, dict_getitem, accepted in *.
  rewrite lookup_ACTION_CONFIG_KEYS.
  apply known_action_type_cases in Hknown.
  destruct (action_type obj); [naive_solver | | |];
    destruct Hacc as [a Ha]; simpl;
    unfold InputActionConfig_model_validate, validate_field;
    rewrite ?lookup_singleton_eq, ?lookup_singleton_ne by done;
    rewrite Ha; simpl; eauto.
Qed.

(** The wrapper that [prepare_action_input] returns, and when it returns
    one. *)
Lemma prepare_action_input_wrapped (obj : Action) (config : InputActionConfig.t) :
  prepare_action_input obj = Ok config ↔ wrapped_as obj config.
Proof.
  unfold prepare_action_input, dict_getitem, wrapped_as.
  rewrite lookup_ACTION_CONFIG_KEYS.
  destruct (action_type obj); simpl; [by split | | |];
    unfold InputActionConfig_model_validate, validate_field;
    rewrite ?lookup_singleton_eq, ?lookup_singleton_ne by done;
    match goal with
    | |- context [?validate obj] => destruct (validate obj) as [a|e]; simpl
    end;
    (split; [intros [= <-]; by eexists | intros (? & [= <-] & ->) || intros (? & [=] & _)]);
    done.
Qed.

(** C1.  When the fully defined automation validates, its action is of one
    of the three kinds of the table and the class of the field of that kind
    accepts it, [prepare_create_input] returns a payload that carries the
    name, the description, the enabled flag, the type and the id of the
    scope, the event type, the event filter and the action type of the
    prepared automation, and a wrapper in which exactly one field is
    populated: the one of the kind of the action. *)
Theorem prepare_create_input_payload (obj : NewAutomation.t)
    (updates : AutomationParams.t) (prepared : PreparedAutomation.t) :
  PreparedAutomation_model_validate (NewAutomation_model_copy obj updates)
    = Ok prepared →
  action_type (PreparedAutomation.action prepared) ∈ known_action_types →
  accepted (PreparedAutomation.action prepared) →
  ∃ payload,
    prepare_create_input obj updates = Ok payload
    ∧ CreateFilterTriggerInput.name payload = PreparedAutomation.name prepared
    ∧ CreateFilterTriggerInput.description payload
      = PreparedAutomation.description prepared
    ∧ CreateFilterTriggerInput.enabled payload = PreparedAutomation.enabled prepared
    ∧ CreateFilterTriggerInput.scope_type payload
      = Scope.scope_type (PreparedAutomation.scope prepared)
    ∧ CreateFilterTriggerInput.scope_id payload
      = Scope.id (PreparedAutomation.scope prepared)
    ∧ CreateFilterTriggerInput.triggering_event_type payload
      = Event.event_type (PreparedAutomation.event prepared)
    ∧ CreateFilterTriggerInput.event_filter payload
      = Event.filter (PreparedAutomation.event prepared)
    ∧ CreateFilterTriggerInput.triggered_action_type payload
      = action_type (PreparedAutomation.action prepared)
    ∧ populated_kinds (CreateFilterTriggerInput.triggered_action_config payload)
      = [action_type (PreparedAutomation.action prepared)].
Proof.
  intros Hvalid Hknown Hacc.
  destruct (prepare_action_input_known _ Hknown Hacc) as (config & Hconfig & Hone).
  unfold prepare_create_input. rewrite Hvalid. simpl. rewrite Hconfig. simpl.
  eexists. split; [reflexivity |]. simpl. by repeat split.
Qed.

(** C2, as amended.  For an action whose kind has no entry in the table,
    preparing the action config fails with the [KeyError] of the table lookup,
    which carries the kind: in [prepare_action_input], in
    [prepare_update_input], and in [prepare_create_input] whenever the
    validation that precedes the lookup lets the action through. *)
Theorem unknown_action_type_raises_KeyError (action : Action) :
  action_type action ∉ known_action_types →
  prepare_action_input action
    = Raise (Exn KeyError (ActionType_value (action_type action)))
  ∧ (∀ obj updates,
       Automation.action (Automation_model_copy obj updates) = action →
       prepare_update_input obj updates
         = Raise (Exn KeyError (ActionType_value (action_type action))))
  ∧ (∀ obj updates prepared,
       PreparedAutomation_model_validate (NewAutomation_model_copy obj updates)
         = Ok prepared →
       PreparedAutomation.action prepared = action →
       prepare_create_input obj updates
         = Raise (Exn KeyError (ActionType_value (action_type action)))).
Proof.
  intros Hunknown. pose proof (prepare_action_input_unknown _ Hunknown) as Hraise.
  split; [done |]. split.
  - intros obj updates Haction. unfold prepare_update_input.
    by rewrite Haction, Hraise.
  - intros obj updates prepared Hvalid Haction. unfold prepare_create_input.
    rewrite Hvalid. simpl. by rewrite Haction, Hraise.
Qed.

(** C3, as amended.  For a saved automation whose action, after the
    overrides, is of a kind of the table and is accepted by the class of its
    field, [prepare_update_input] returns a payload that carries the identity
    of the automation and, besides, the fields of a create payload, its
    wrapper holding in the field of the kind of the action, and in no other,
    what the class of that field makes of the action; a wrapped event filter
    is replaced by its inner expression, any other filter is passed as it is;
    and the payload without its identity is the very payload that
    [prepare_create_input] returns for a fully defined automation of the same
    content, with the filter in the unwrapped shape, whose action is wrapped
    alike. *)
Theorem prepare_update_input_payload (obj : Automation.t)
    (updates : AutomationParams.t) :
  let updated := Automation_model_copy obj updates in
  action_type (Automation.action updated) ∈ known_action_types →
  accepted (Automation.action updated) →
  ∃ payload,
    prepare_update_input obj updates = Ok payload
    ∧ UpdateFilterTriggerInput.id payload = Automation.id obj
    ∧ UpdateFilterTriggerInput.name payload = Automation.name updated
    ∧ UpdateFilterTriggerInput.description payload = Automation.description updated
    ∧ UpdateFilterTriggerInput.enabled payload = Automation.enabled updated
    ∧ UpdateFilterTriggerInput.scope_type payload
      = Scope.scope_type (Automation.scope updated)
    ∧ UpdateFilterTriggerInput.scope_id payload = Scope.id (Automation.scope updated)
    ∧ UpdateFilterTriggerInput.triggering_event_type payload
      = Event.event_type (Automation.event updated)
    ∧ UpdateFilterTriggerInput.triggered_action_type payload
      = action_type (Automation.action updated)
    ∧ populated_kinds (UpdateFilterTriggerInput.triggered_action_config payload)
      = [action_type (Automation.action updated)]
    ∧ wrapped_as (Automation.action updated)
        (UpdateFilterTriggerInput.triggered_action_config payload)
    ∧ (∀ inner,
         Event.filter (Automation.event updated) = _WrappedEventFilter inner →
         UpdateFilterTriggerInput.event_filter payload = inner)
    ∧ (is_WrappedEventFilter (Event.filter (Automation.event updated)) = false →
       UpdateFilterTriggerInput.event_filter payload
       = Event.filter (Automation.event updated))
    ∧ (∀ new_obj new_updates prepared,
         PreparedAutomation_model_validate
           (NewAutomation_model_copy new_obj new_updates) = Ok prepared →
         same_content prepared updated →
         wrapped_as (PreparedAutomation.action prepared)
           (UpdateFilterTriggerInput.triggered_action_config payload) →
         prepare_create_input new_obj new_updates = Ok (as_create_input payload)).
Proof.
  intros updated Hknown Hacc.
  destruct (prepare_action_input_known _ Hknown Hacc) as (config & Hconfig & Hone).
  unfold prepare_update_input. fold updated. rewrite Hconfig. simpl.
  eexists. split; [reflexivity |]. simpl.
  split_and!; try done.
  - by apply prepare_action_input_wrapped.
  - by intros inner ->.
  - by destruct (Event.filter _).
  - intros new_obj new_updates prepared Hvalid Hsame Hwrapped.
    destruct Hsame as (Hn & Hd & He & Hst & Hsi & Het & Hf & Hat).
    apply prepare_action_input_wrapped in Hwrapped.
    unfold prepare_create_input. rewrite Hvalid. simpl. rewrite Hwrapped. simpl.
    unfold as_create_input. simpl.
    by rewrite Hn, Hd, He, Hst, Hsi, Het, Hf, Hat.
Qed.

(** C4, as amended.  For a saved automation whose action is of a kind of
    the table and is accepted by the class of its field, and for overrides of
    [name], [description] and [enabled] only, the update preparer returns a
    payload, as it does without overrides; the payload has the override
    values in the overridden fields and, in every other field, what the
    original automation has: its id, the type and the id of its scope, its
    event type, its event filter (unwrapped), its action type and the wrapper
    of its action; and it is the payload prepared without overrides, with
    the overridden fields replaced. *)
Theorem prepare_update_input_overrides (obj : Automation.t)
    (name description : option string) (enabled : option bool) :
  action_type (Automation.action obj) ∈ known_action_types →
  accepted (Automation.action obj) →
  ∃ payload original,
    prepare_update_input obj (overrides name description enabled) = Ok payload
    ∧ prepare_update_input obj AutomationParams.empty = Ok original
    ∧ UpdateFilterTriggerInput.name payload = default (Automation.name obj) name
    ∧ UpdateFilterTriggerInput.description payload
      = from_option Some (Automation.description obj) description
    ∧ UpdateFilterTriggerInput.enabled payload
      = default (Automation.enabled obj) enabled
    ∧ UpdateFilterTriggerInput.id payload = Automation.id obj
    ∧ UpdateFilterTriggerInput.scope_type payload
      = Scope.scope_type (Automation.scope obj)
    ∧ UpdateFilterTriggerInput.scope_id payload = Scope.id (Automation.scope obj)
    ∧ UpdateFilterTriggerInput.triggering_event_type payload
      = Event.event_type (Automation.event obj)
    ∧ UpdateFilterTriggerInput.event_filter payload
      = unwrapped_filter (Event.filter (Automation.event obj))
    ∧ UpdateFilterTriggerInput.triggered_action_type payload
      = action_type (Automation.action obj)
    ∧ wrapped_as (Automation.action obj)
        (UpdateFilterTriggerInput.triggered_action_config payload)
    ∧ payload = with_overrides original name description enabled.
Proof.
  intros Hknown Hacc.
  destruct (prepare_action_input_known _ Hknown Hacc) as (config & Hconfig & _).
  unfold prepare_update_input, overrides, AutomationParams.empty. simpl.
  rewrite Hconfig. simpl.
  eexists _, _. split; [reflexivity |]. split; [reflexivity |]. simpl.
  split_and!; try done.
  by apply prepare_action_input_wrapped.
Qed.

End Preparers.

Lemma prepare_create_input_payload_witness :
  ∃ payload,
    @prepare_create_input example_schema example_new
      (AutomationParams.mk (Some "test-automation") (Some "test-description")
         None None None None) = Ok payload
    ∧ CreateFilterTriggerInput.name payload = "test-automation"
    ∧ CreateFilterTriggerInput.triggering_event_type payload = CREATE_ARTIFACT
    ∧ InputActionConfig.notification_action_input
        (CreateFilterTriggerInput.triggered_action_config payload) = None
    ∧ populated_kinds (CreateFilterTriggerInput.triggered_action_config payload)
      = [GENERIC_WEBHOOK].
Proof.
  destruct (@prepare_create_input_payload example_schema example_new
              (AutomationParams.mk (Some "test-automation") (Some "test-description")
                 None None None None) _ eq_refl)
    as (payload & Hpayload & Hname & _ & _ & _ & _ & Hevent & _ & _ & Hone).
  - by apply (bool_decide_unpack _).
  - by eexists.
  - exists payload. repeat split; try done.
    by injection Hpayload as <-.
Defined.

(** The claim C2 as it is stated fails on the saved automation with a
    Launch-job action: the update preparer raises, but what it raises is the
    [KeyError] of the lookup and no configuration error. *)
Lemma unsupported_action_type_not_configuration_error :
  ¬ ∃ e, @prepare_update_input example_schema example_saved_launch
           AutomationParams.empty = Raise e
         ∧ is_configuration_error e = true.
Proof. intros (e & [= <-] & Herr). discriminate Herr. Qed.

Lemma unknown_action_type_raises_KeyError_witness :
  @prepare_action_input example_schema (SavedAction QUEUE_JOB ∅)
    = Raise (Exn KeyError "QUEUE_JOB")
  ∧ @prepare_update_input example_schema example_saved_launch AutomationParams.empty
    = Raise (Exn KeyError "QUEUE_JOB")
  ∧ @prepare_create_input example_schema example_new
      (AutomationParams.mk (Some "launch") None None None None
         (Some (SavedAction QUEUE_JOB ∅)))
    = Raise (Exn KeyError "QUEUE_JOB").
Proof.
  destruct (@unknown_action_type_raises_KeyError example_schema
              (SavedAction QUEUE_JOB ∅)) as (Haction & Hupdate & Hcreate).
  - by apply (bool_decide_unpack _).
  - split; [exact Haction |]. split.
    + by apply Hupdate.
    + by eapply Hcreate.
Defined.

(** The claim C3 as it is stated fails on the saved automation with a
    Launch-job action: the update preparer returns no payload, the lookup in
    the table raising before anything is validated. *)
Lemma saved_launch_automation_has_no_update_payload :
  @prepare_update_input example_conversion example_saved_launch AutomationParams.empty
  = Raise (Exn KeyError "QUEUE_JOB")
  ∧ ¬ ∃ payload,
        @prepare_update_input example_conversion example_saved_launch
          AutomationParams.empty = Ok payload.
Proof. split; [reflexivity |]. by intros [payload [=]]. Qed.

Lemma prepare_update_input_payload_witness :
  ∃ payload,
    @prepare_update_input example_conversion example_read
      (overrides (Some "new-name") None None) = Ok payload
    ∧ UpdateFilterTriggerInput.id payload = "VHJpZ2dlcjox"
    ∧ UpdateFilterTriggerInput.name payload = "new-name"
    ∧ UpdateFilterTriggerInput.event_filter payload = example_filter
    ∧ UpdateFilterTriggerInput.triggered_action_config payload
      = InputActionConfig.mk None
          (Some (DoWebhook.mk "SW50ZWdyYXRpb246MQ==" "{}")) None
    ∧ @prepare_create_input example_conversion example_new
        (AutomationParams.mk (Some "new-name") (Some "original description")
           (Some true) None None None) = Ok (as_create_input payload).
Proof.
  destruct (@prepare_update_input_payload example_conversion example_read
              (overrides (Some "new-name") None None))
    as (payload & Hpayload & Hid & Hname & _ & _ & _ & _ & _ & _ & _ & Hconfig
        & Hwrapped & _ & Hcreate).
  - by apply (bool_decide_unpack _).
  - by eexists.
  - destruct Hconfig as (a & [= <-] & Hconfig).
    exists payload. split; [exact Hpayload |]. split; [exact Hid |].
    split; [exact Hname |]. split; [by apply Hwrapped |].
    split; [exact Hconfig |].
    eapply Hcreate; [reflexivity | by repeat split |].
    rewrite Hconfig. by eexists.
Defined.

(** The claim C4 as it is stated fails on the same automation, whatever the
    overrides: with a new name, the update preparer returns no payload. *)
Lemma saved_launch_automation_has_no_override_payload :
  ¬ ∃ payload,
      @prepare_update_input example_conversion example_saved_launch
        (overrides (Some "renamed") None None) = Ok payload.
Proof. by intros [payload [=]]. Qed.

Lemma prepare_update_input_overrides_witness :
  ∃ payload original,
    @prepare_update_input example_conversion example_read
      (overrides None (Some "new-description") (Some false)) = Ok payload
    ∧ @prepare_update_input example_conversion example_read AutomationParams.empty
      = Ok original
    ∧ UpdateFilterTriggerInput.name payload = "test-automation"
    ∧ UpdateFilterTriggerInput.description payload = Some "new-description"
    ∧ UpdateFilterTriggerInput.enabled payload = false
    ∧ UpdateFilterTriggerInput.id payload = "VHJpZ2dlcjox"
    ∧ UpdateFilterTriggerInput.triggered_action_type payload = GENERIC_WEBHOOK
    ∧ UpdateFilterTriggerInput.triggered_action_config payload
      = InputActionConfig.mk None
          (Some (DoWebhook.mk "SW50ZWdyYXRpb246MQ==" "{}")) None
    ∧ payload = with_overrides original None (Some "new-description") (Some false).
Proof.
  destruct (@prepare_update_input_overrides example_conversion example_read
              None (Some "new-description") (Some false))
    as (payload & original & Hpayload & Horiginal & Hname & Hdesc & Henabled & Hid
        & _ & _ & _ & _ & Htype & Hconfig & Hmerge).
  - by apply (bool_decide_unpack _).
  - by eexists.
  - destruct Hconfig as (a & [= <-] & Hconfig).
    exists payload, original. by split_and!.
Defined.

(** ** The paginated listing *)

Section Listing.
Context `{ListingSchema}.

Lemma _update_response_Ok_inv (self self' : Paginator) :
  _update_response self = Ok self' →
  ∃ data search_scope page_data page,
    client self (_query self) (variables self) = Ok data
    ∧ getitem data "searchScope" = Ok search_scope
    ∧ getitem search_scope "projects" = Ok page_data
    ∧ ProjectConnectionFields_model_validate page_data = Ok page
    ∧ self' = set_last_response self page.
Proof.
  unfold _update_response, parse_page, try_except.
  destruct (client self _ _) as [data|e] eqn:Hdata; [simpl | discriminate].
  destruct (getitem data "searchScope") as [search_scope|e] eqn:Hscope; simpl;
    [| by repeat case_match].
  destruct (getitem search_scope "projects") as [page_data|e] eqn:Hprojects; simpl;
    [| by repeat case_match].
  destruct (ProjectConnectionFields_model_validate page_data) as [page|e] eqn:Hpage;
    simpl; [| by repeat case_match].
  intros [= <-]. by exists data, search_scope, page_data, page.
Qed.

Lemma _update_response_well_shaped (self : Paginator)
    (data search_scope page_data : json) (page : ProjectConnectionFields) :
  client self (_query self) (variables self) = Ok data →
  getitem data "searchScope" = Ok search_scope →
  getitem search_scope "projects" = Ok page_data →
  ProjectConnectionFields_model_validate page_data = Ok page →
  _update_response self = Ok (set_last_response self page).
Proof.
  intros Hdata Hscope Hprojects Hpage. unfold _update_response, parse_page.
  rewrite Hdata. simpl. rewrite Hscope. simpl. rewrite Hprojects. simpl.
  by rewrite Hpage.
Qed.

(** A parse exception of one of the three classes of the [except] clause is
    replaced by the [ValueError]. *)
Lemma _update_response_wraps (self : Paginator) (data : json) (e : exn) :
  client self (_query self) (variables self) = Ok data →
  parse_page self data = Raise e →
  isinstance_any e [LookupError; AttributeError; ValidationError] = true →
  _update_response self = Raise (Exn ValueError "Unexpected response data").
Proof.
  intros Hdata Hparse Hcaught. unfold _update_response.
  rewrite Hdata. cbn [mbind result_bind]. rewrite Hparse.
  unfold try_except. by rewrite Hcaught.
Qed.

(** A missing key is such an exception. *)
Lemma _update_response_missing_key (self : Paginator) (d : gmap string json) :
  client self (_query self) (variables self) = Ok (JDict d) →
  d !! "searchScope" = None →
  _update_response self = Raise (Exn ValueError "Unexpected response data").
Proof.
  intros Hdata Hmissing.
  apply (_update_response_wraps self (JDict d) (Exn KeyError "searchScope"));
    [done | | done].
  unfold parse_page. simpl. unfold dict_getitem. by rewrite Hmissing.
Qed.

(** An exception of any other class leaves [_update_response] as it is. *)
Lemma _update_response_propagates (self : Paginator) (data : json) (e : exn) :
  client self (_query self) (variables self) = Ok data →
  parse_page self data = Raise e →
  isinstance_any e [LookupError; AttributeError; ValidationError] = false →
  _update_response self = Raise e.
Proof.
  intros Hdata Hparse Hcaught. unfold _update_response.
  rewrite Hdata. cbn [mbind result_bind]. rewrite Hparse.
  unfold try_except. by rewrite Hcaught.
Qed.

(** Subscripting anything but a dictionary is such an exception. *)
Lemma getitem_not_dict (obj : json) (key : string) :
  (∀ d, obj ≠ JDict d) →
  ∃ msg, getitem obj key = Raise (Exn TypeError msg)
         ∧ isinstance_any (Exn TypeError msg)
             [LookupError; AttributeError; ValidationError] = false.
Proof. intros Hnot. destruct obj; try by eexists. by destruct (Hnot d). Qed.

(** C5.  [more] is [True] on a new paginator of either class and whenever no
    page has been fetched; after a page fetch that succeeds it is the
    has-next-page flag of the page just stored, so it is [False] after a
    final page. *)
Theorem more_spec :
  (∀ c vars n,
     more (AutomationsByEntity c vars n) = true
     ∧ more (AutomationsForViewer c vars n) = true)
  ∧ (∀ self, last_response self = None → more self = true)
  ∧ (∀ self self',
       _update_response self = Ok self' →
       ∃ page, last_response self' = Some page
               ∧ more self' = has_next_page (page_info page)
               ∧ (has_next_page (page_info page) = false → more self' = false)).
Proof.
  split; [done |]. split.
  - intros self Hnone. unfold more. by rewrite Hnone.
  - intros self self' Hfetch.
    apply _update_response_Ok_inv in Hfetch as (? & ? & ? & page & _ & _ & _ & _ & ->).
    exists page. unfold more. simpl. by repeat split.
Qed.

(** C10.  [cursor] is [None] on a new paginator of either class and whenever
    no page has been fetched, so that the variables of the first request
    carry a null position token; after a page fetch that succeeds it is the
    end cursor of the page just stored. *)
Theorem cursor_spec :
  (∀ c vars n,
     cursor (AutomationsByEntity c vars n) = None
     ∧ cursor (AutomationsForViewer c vars n) = None
     ∧ variables (update_variables (AutomationsByEntity c vars n)) !! "cursor"
       = Some JNull
     ∧ variables (update_variables (AutomationsForViewer c vars n)) !! "cursor"
       = Some JNull)
  ∧ (∀ self, last_response self = None → cursor self = None)
  ∧ (∀ self self',
       _update_response self = Ok self' →
       ∃ page, last_response self' = Some page
               ∧ cursor self' = end_cursor (page_info page)
               ∧ variables (update_variables self') !! "cursor"
                 = Some (json_of_cursor (end_cursor (page_info page)))).
Proof.
  split; [| split].
  - intros c vars n. repeat split; try done; apply lookup_insert_eq.
  - intros self Hnone. unfold cursor. by rewrite Hnone.
  - intros self self' Hfetch.
    apply _update_response_Ok_inv in Hfetch as (? & ? & ? & page & _ & _ & _ & _ & ->).
    exists page. unfold cursor. simpl. repeat split; try done.
    apply lookup_insert_eq.
Qed.

Lemma length_page_triggers (page : ProjectConnectionFields) :
  length (page_triggers page)
  = sum_list (map (λ edge, length (triggers (node edge))) (edges page)).
Proof.
  unfold page_triggers. induction (edges page) as [|edge rest IH]; [done |].
  simpl. by rewrite length_app, IH.
Qed.

(** The position, among the trigger records of a page, of a record of one
    of its project edges: after the records of the edges before. *)
Lemma page_triggers_lookup (page : ProjectConnectionFields) (j : nat)
    (edge : ProjectConnectionFieldsEdges) (k : nat) (obj : TriggerFields) :
  edges page !! j = Some edge →
  triggers (node edge) !! k = Some obj →
  page_triggers page
    !! (sum_list (map (λ edge, length (triggers (node edge))) (take j (edges page)))
        + k)%nat
  = Some obj.
Proof.
  unfold page_triggers. revert j.
  induction (edges page) as [|first rest IH]; intros j Hedge Hobj; [done |].
  destruct j as [|j]; simpl in *.
  - injection Hedge as ->. by apply lookup_app_l_Some.
  - rewrite lookup_app_r by lia.
    replace (length (triggers (node first))
             + sum_list (map (λ edge, length (triggers (node edge))) (take j rest))
             + k - length (triggers (node first)))%nat
      with (sum_list (map (λ edge, length (triggers (node edge))) (take j rest))
            + k)%nat by lia.
    by apply IH.
Qed.

(** C6, as amended.  On a paginator that holds a parsed page, all of whose
    trigger records decode, [convert_objects] returns as many automations as
    the page has trigger records, summed over its project edges, and the
    automation at each position is the decoding of the record at that
    position: the records of the first edge in their order, then those of
    the second, and so on. *)
Theorem convert_objects_in_order (self : Paginator)
    (page : ProjectConnectionFields) :
  last_response self = Some page →
  Forall (λ obj, is_Ok (decode obj)) (page_triggers page) →
  ∃ automations,
    convert_objects self = Ok automations
    ∧ length automations
      = sum_list (map (λ edge, length (triggers (node edge))) (edges page))
    ∧ (∀ i obj, page_triggers page !! i = Some obj →
         ∃ automation, automations !! i = Some automation
                       ∧ decode obj = Ok automation)
    ∧ (∀ j edge k obj,
         edges page !! j = Some edge →
         triggers (node edge) !! k = Some obj →
         ∃ automation,
           automations
             !! (sum_list
                   (map (λ edge, length (triggers (node edge))) (take j (edges page)))
                 + k)%nat
           = Some automation
           ∧ decode obj = Ok automation).
Proof.
  intros Hpage Hdecode.
  assert (∃ automations,
            Forall2 (λ obj a, decode obj = Ok a) (page_triggers page) automations)
    as [automations Hall].
  { induction Hdecode as [|obj objs [a Ha] _ [autos IH]].
    - exists []. constructor.
    - exists (a :: autos). by constructor. }
  exists automations. unfold convert_objects. rewrite Hpage. split.
  - by apply for_each_Ok.
  - split_and!.
    + rewrite <- length_page_triggers. symmetry. by eapply Forall2_length.
    + intros i obj Hi.
      destruct (Forall2_lookup_l _ _ _ _ _ Hall Hi) as (a & Ha & Hobj). eauto.
    + intros j edge k obj Hedge Hobj.
      pose proof (page_triggers_lookup page j edge k obj Hedge Hobj) as Hi.
      destruct (Forall2_lookup_l _ _ _ _ _ Hall Hi) as (a & Ha & Hdec). eauto.
Qed.

(** C7, at the failing input.  When the response has a null search scope,
    [_update_response] of either class raises the [TypeError] of the
    subscript, which the [except] clause does not list: what propagates is
    no [ValueError] and no "malformed response" error. *)
Theorem update_response_null_scope_raises_TypeError
    (vars : gmap string json) (n : Z) :
  let raised := Exn TypeError "'NoneType' object is not subscriptable" in
  _update_response
    (AutomationsByEntity (λ _ _, Ok example_null_scope) vars n)
    = Raise raised
  ∧ _update_response
      (AutomationsForViewer (λ _ _, Ok example_null_scope) vars n)
    = Raise raised
  ∧ isinstance raised ValueError = false
  ∧ isinstance_any raised [LookupError; AttributeError; ValidationError] = false.
Proof. done. Qed.

End Listing.

Example example_client_fetch :
  @_update_response example_listing (AutomationsByEntity example_client ∅ 50)
  = Ok example_fetched.
Proof. reflexivity. Qed.

Lemma more_spec_witness :
  more (AutomationsByEntity example_client ∅ 50) = true
  ∧ ∃ self', @_update_response example_listing
               (AutomationsByEntity example_client ∅ 50) = Ok self'
             ∧ more self' = false.
Proof.
  destruct (@more_spec example_listing) as (_ & Hnone & Hfetch).
  split; [by apply Hnone |].
  destruct (@_update_response example_listing
              (AutomationsByEntity example_client ∅ 50)) as [self'|e] eqn:Hself;
    [| discriminate Hself].
  exists self'. split; [done |].
  destruct (Hfetch _ _ Hself) as (page & Hlast & _ & Hfinal).
  apply Hfinal. vm_compute in Hself. injection Hself as <-.
  by injection Hlast as <-.
Defined.

Lemma cursor_spec_witness :
  cursor (AutomationsForViewer example_client ∅ 50) = None
  ∧ ∃ self', @_update_response example_listing
               (AutomationsForViewer example_client ∅ 50) = Ok self'
             ∧ cursor self' = Some "Y3Vyc29yOjI=".
Proof.
  destruct (@cursor_spec example_listing) as (_ & Hnone & Hfetch).
  split; [by apply Hnone |].
  destruct (@_update_response example_listing
              (AutomationsForViewer example_client ∅ 50)) as [self'|e] eqn:Hself;
    [| discriminate Hself].
  exists self'. split; [done |].
  destruct (Hfetch _ _ Hself) as (page & Hlast & -> & _).
  vm_compute in Hself. injection Hself as <-.
  by injection Hlast as <-.
Defined.

(** The claim C6 as it is stated fails on a page that parses and has three
    trigger records, one of which does not decode: [convert_objects] then
    raises and returns no automation at all. *)
Lemma parsed_page_with_undecodable_record :
  ∃ self page,
    @_update_response example_listing
      (AutomationsByEntity (λ _ _, Ok example_nameless_page) ∅ 50) = Ok self
    ∧ last_response self = Some page
    ∧ length (page_triggers page) = 3%nat
    ∧ @convert_objects example_listing self
      = Raise (Exn ValidationError "Automation").
Proof. eexists _, _. split; [reflexivity |]. by split_and!. Qed.

Lemma convert_objects_in_order_witness :
  ∃ automations,
    @convert_objects example_listing example_fetched = Ok automations
    ∧ length automations = 3%nat
    ∧ Automation.name <$> automations
      = ["automation-0"; "automation-1"; "automation-2"].
Proof.
  destruct (@convert_objects_in_order example_listing example_fetched
              example_fetched_page eq_refl) as (automations & Hconv & Hlen & Hnth & _).
  - repeat constructor; by eexists.
  - exists automations. split; [exact Hconv |]. split; [exact Hlen |].
    vm_compute in Hconv. by injection Hconv as <-.
Defined.

(** ** The finalizer of the service connection *)

(** C9.  [_cleanup] never raises: without a connection it returns at once and
    sends nothing; with a connection it sends one clean-up request for the
    api id and returns normally whatever the request returns or raises.  So
    the finalizer of a [ServiceApi] never raises. *)
Theorem cleanup_never_raises (api_id : string) (sent : list string) :
  _cleanup None api_id sent = (Ok (), sent)
  ∧ (∀ conn, _cleanup (Some conn) api_id sent = (Ok (), (sent ++ [api_id])%list))
  ∧ (∀ self, (finalize self sent).1 = Ok ()).
Proof.
  assert (∀ connection id,
            (_cleanup connection id sent).1 = Ok ()
            ∧ (_cleanup connection id sent).2
              = match connection with
                | Some _ => (sent ++ [id])%list
                | None => sent
                end) as Hcleanup.
  { intros [conn|] id; [| done]. unfold _cleanup, suppress, try_except.
    destruct (api_cleanup_request conn id) as [[]|e]; [done |].
    unfold isinstance_any, existsb. by rewrite isinstance_Exception. }
  split; [done |]. split.
  - intros conn. destruct (Hcleanup (Some conn) api_id) as [Hok Hsent].
    by destruct (_cleanup (Some conn) api_id sent); simplify_eq/=.
  - intros self. unfold finalize.
    destruct (finalizer self) as [[connection id]|]; [| done].
    apply Hcleanup.
Qed.

(** The finalizer that [_get_service_connection] registers cleans up the id
    that the backend assigned, over the connection just made. *)
Lemma _get_service_connection_finalizer (settings uuid response_id : string)
    (conn : ServiceConnection) (sent : list string) :
  api_init_request conn settings = Ok response_id →
  ∃ self,
    _get_service_connection (Ok conn) (ServiceApi_init settings uuid)
    = (Ok conn, self)
    ∧ _api_id self = response_id
    ∧ finalize self sent = (Ok (), (sent ++ [response_id])%list).
Proof.
  intros Hinit. unfold _get_service_connection. simpl. rewrite Hinit.
  eexists. split; [reflexivity |]. split; [done |].
  unfold finalize, _cleanup, suppress, try_except. simpl.
  destruct (api_cleanup_request conn response_id) as [[]|e]; [done |].
  unfold isinstance_any, existsb. by rewrite isinstance_Exception.
Qed.

Example cleanup_suppresses_closed_connection :
  _cleanup
    (Some {| api_init_request := λ _, Ok "api-1";
             api_cleanup_request := λ _, Raise (Exn RuntimeError "closed") |})
    "api-1" [] = (Ok (), ["api-1"]).
Proof. reflexivity. Qed.

(** ** Waiting for the health checks *)

Section Waiting.
Variable net : Network.
Variable health_url : string.
Variable timeout : Z.

Lemma loop_body_200 (start_time now : Z) :
  (poll net health_url timeout start_time now).1 = Response 200 →
  loop_body net health_url timeout start_time now
  = (Returns, now + (poll net health_url timeout start_time now).2).
Proof.
  unfold poll, loop_body. destruct (net _ _ _) as [outcome took]. simpl.
  by intros ->.
Qed.

Lemma loop_body_connection_error (start_time now : Z) (e : exn) :
  (poll net health_url timeout start_time now).1 = RequestRaises e →
  isinstance e requests_ConnectionError = true →
  loop_body net health_url timeout start_time now
  = let now := now + (poll net health_url timeout start_time now).2 in
    if bool_decide (time_remaining timeout start_time now ≤ 0)
    then (Raises (Exn TimeoutError ""), now)
    else (Again, now + 1000).
Proof.
  unfold poll, loop_body. destruct (net _ _ _) as [outcome took]. simpl.
  by intros -> ->.
Qed.

(** The clock does not go back during a pass, and a pass that is followed by
    another one ends a second after a reading at which time remained. *)
Lemma loop_body_clock (start_time now now' : Z) (p : pass) :
  time_passes net →
  loop_body net health_url timeout start_time now = (p, now') →
  now ≤ now'
  ∧ (p = Again → -1000 < time_remaining timeout start_time now'
                 ∧ now + 1000 ≤ now').
Proof.
  intros Htime. unfold loop_body.
  pose proof (Htime health_url
    (Z.max 1000 (time_remaining timeout start_time now)) now) as Htook.
  destruct (net _ _ _) as [outcome took]. simpl in Htook.
  unfold time_remaining.
  destruct outcome as [status|e]; repeat case_match; intros [= <- <-];
    try (split; [lia | done]).
  all: split; [lia |]; intros _; case_bool_decide; lia.
Qed.

(** Without an HTTP 200 a pass cannot end with [return]. *)
Lemma loop_body_never_healthy (start_time now now' : Z) (p : pass) :
  never_healthy net health_url →
  raises_connection_errors_or_timeouts net health_url →
  loop_body net health_url timeout start_time now = (p, now') →
  p = Again ∨ p = Raises (Exn TimeoutError "").
Proof.
  intros Hdown Hraises. unfold loop_body.
  pose proof (Hdown (Z.max 1000 (time_remaining timeout start_time now)) now)
    as Hnot200.
  pose proof (Hraises (Z.max 1000 (time_remaining timeout start_time now)) now)
    as Hclass.
  destruct (net _ _ _) as [outcome took]. simpl in Hnot200, Hclass.
  destruct outcome as [status|e].
  - rewrite bool_decide_eq_false_2 by congruence.
    case_bool_decide; intros [= <- <-]; auto.
  - specialize (Hclass e eq_refl). unfold isinstance_any, existsb in Hclass.
    destruct (isinstance e requests_ConnectionError).
    + case_bool_decide; intros [= <- <-]; auto.
    + destruct (isinstance e requests_Timeout); [| done].
      intros [= <- <-]; auto.
Qed.

(** More fuel does not change the outcome of a wait that ended. *)
Lemma wait_loop_more_fuel (fuel fuel' : nat) (start_time now : Z)
    (r : result unit * Z) :
  (fuel ≤ fuel')%nat →
  wait_loop fuel net health_url timeout start_time now = Some r →
  wait_loop fuel' net health_url timeout start_time now = Some r.
Proof.
  revert fuel' now. induction fuel as [|fuel IH]; intros fuel' now Hle; [done |].
  destruct fuel' as [|fuel']; [lia |]. simpl.
  destruct (loop_body _ _ _ _ _) as [[| |] now']; try done.
  apply IH. lia.
Qed.

(** The loop ends: a wait of [timeout] seconds makes [timeout + 1] passes at
    most. *)
Lemma wait_loop_terminates (start_time : Z) :
  time_passes net →
  ∀ (fuel : nat) (now : Z),
    time_remaining timeout start_time now ≤ 1000 * Z.of_nat fuel →
    is_Some (wait_loop (S fuel) net health_url timeout start_time now).
Proof.
  intros Htime fuel. induction fuel as [|fuel IH]; intros now Hleft.
  all: cbn [wait_loop].
  all: destruct (loop_body _ _ _ _ _) as [[| |] now'] eqn:Hbody; try done.
  all: destruct (loop_body_clock _ _ _ _ Htime Hbody) as [_ Hagain].
  all: destruct (Hagain eq_refl) as [Hremains Hslept].
  all: unfold time_remaining in *.
  - lia.
  - apply IH. unfold time_remaining. lia.
Qed.

Lemma wait_loop_never_healthy (start_time : Z) :
  never_healthy net health_url →
  raises_connection_errors_or_timeouts net health_url →
  ∀ (fuel : nat) (now now' : Z) (r : result unit),
    wait_loop fuel net health_url timeout start_time now = Some (r, now') →
    r = Raise (Exn TimeoutError "").
Proof.
  intros Hdown Hraises fuel.
  induction fuel as [|fuel IH]; intros now now' r; [done |]. simpl.
  destruct (loop_body _ _ _ _ _) as [p now''] eqn:Hbody.
  destruct (loop_body_never_healthy _ _ _ _ Hdown Hraises Hbody) as [-> | ->].
  - apply IH.
  - by intros [= <- _].
Qed.

(** Without an HTTP 200 the wait ends with [TimeoutError]. *)
Lemma wait_for_http_200_times_out (now : Z) :
  time_passes net →
  never_healthy net health_url →
  raises_connection_errors_or_timeouts net health_url →
  ∃ now', _wait_for_http_200 (S (Z.to_nat timeout)) net health_url timeout now
          = Some (Raise (Exn TimeoutError ""), now').
Proof.
  intros Htime Hdown Hraises. unfold _wait_for_http_200.
  destruct (wait_loop_terminates now Htime (Z.to_nat timeout) now)
    as [[r now'] Hend]; [unfold time_remaining; lia |].
  exists now'. rewrite Hend.
  by rewrite (wait_loop_never_healthy now Hdown Hraises _ _ _ _ Hend).
Qed.

(** C8, as amended.  The wait returns normally as soon as a poll answers HTTP
    200, whatever the clock reads then: the deadline is looked at only after
    a poll that did not succeed.  A connection error is swallowed: the wait
    goes on with the next poll one second later, unless no time remains, in
    which case it ends with [TimeoutError].  When no poll answers HTTP 200 and
    the polls raise nothing but connection errors and timeouts, the wait
    ends with [TimeoutError], after [timeout + 1] polls at most. *)
Theorem wait_for_http_200_outcome :
  (∀ fuel start_time now,
     (poll net health_url timeout start_time now).1 = Response 200 →
     wait_loop (S fuel) net health_url timeout start_time now
     = Some (Ok (), now + (poll net health_url timeout start_time now).2))
  ∧ (∀ fuel start_time now e,
       (poll net health_url timeout start_time now).1 = RequestRaises e →
       isinstance e requests_ConnectionError = true →
       wait_loop (S fuel) net health_url timeout start_time now
       = let now := now + (poll net health_url timeout start_time now).2 in
         if bool_decide (time_remaining timeout start_time now ≤ 0)
         then Some (Raise (Exn TimeoutError ""), now)
         else wait_loop fuel net health_url timeout start_time (now + 1000))
  ∧ (time_passes net →
     never_healthy net health_url →
     raises_connection_errors_or_timeouts net health_url →
     ∀ now, ∃ now',
       _wait_for_http_200 (S (Z.to_nat timeout)) net health_url timeout now
       = Some (Raise (Exn TimeoutError ""), now')).
Proof.
  split; [| split].
  - intros fuel start_time now H200. simpl. by rewrite loop_body_200.
  - intros fuel start_time now e Hraised Hclass. simpl.
    rewrite (loop_body_connection_error _ _ e) by done. simpl.
    by case_bool_decide.
  - intros Htime Hdown Hraises now. by apply wait_for_http_200_times_out.
Qed.

End Waiting.

(** Both health URLs are waited for in turn; when the first never answers
    HTTP 200, [wait_until_healthy] ends with the [TimeoutError] of the first
    wait. *)
Lemma wait_until_healthy_times_out (net : Network) (self : _ServerInfo)
    (timeout now : Z) :
  time_passes net →
  (∀ url, never_healthy net url) →
  (∀ url, raises_connection_errors_or_timeouts net url) →
  ∃ now', wait_until_healthy (S (Z.to_nat timeout)) net self timeout now
          = Some (Raise (Exn TimeoutError ""), now').
Proof.
  intros Htime Hdown Hraises. unfold wait_until_healthy.
  set (url := "http://" +:+ hostname self +:+ ":" +:+ pretty (base_port self)
              +:+ "/ready").
  destruct (wait_for_http_200_times_out net url timeout now
              Htime (Hdown url) (Hraises url)) as [now' ->].
  eauto.
Qed.

(** The claim C8 as it is stated fails on the server that starts slowly, for
    a wait of two seconds begun when the clock reads 0.  The first poll is
    refused after 0.5 s; the second poll begins at 1.5 s, with half a second
    left, is tried for one second all the same, and is answered with HTTP 200
    at 2.3 s.  No poll returns HTTP 200 before the deadline at 2 s, and yet the
    wait returns normally, with no [TimeoutError]. *)
Lemma wait_returns_after_deadline :
  (∀ t now,
     (example_slow_start "http://localhost:8080/ready" t now).1 = Response 200 →
     0 + 1000 * 2 < now + (example_slow_start "http://localhost:8080/ready" t now).2)
  ∧ _wait_for_http_200 2 example_slow_start "http://localhost:8080/ready" 2 0
    = Some (Ok (), 2300).
Proof.
  split; [| reflexivity].
  intros t now. unfold example_slow_start. case_bool_decide; [done | simpl; lia].
Qed.

Example wait_until_healthy_slow_start :
  wait_until_healthy 2 example_slow_start example_server 2 0 = Some (Ok (), 3100).
Proof. reflexivity. Qed.

Lemma wait_for_http_200_outcome_witness :
  wait_loop 1 example_slow_start "http://localhost:8080/ready" 2 0 1500
  = Some (Ok (), 2300)
  ∧ wait_loop 2 example_slow_start "http://localhost:8080/ready" 2 0 0
    = wait_loop 1 example_slow_start "http://localhost:8080/ready" 2 0 1500
  ∧ ∃ now', _wait_for_http_200 3 example_down "http://localhost:8080/ready" 2 0
            = Some (Raise (Exn TimeoutError ""), now').
Proof.
  destruct (wait_for_http_200_outcome example_slow_start
              "http://localhost:8080/ready" 2) as (Hok & Hretry & _).
  destruct (wait_for_http_200_outcome example_down
              "http://localhost:8080/ready" 2) as (_ & _ & Hout).
  split; [by apply (Hok 0%nat 0 1500) |]. split.
  - by apply (Hretry 1%nat 0 0 (Exn requests_ConnectionError "Connection refused")).
  - apply Hout.
    + intros url t now. simpl. lia.
    + intros t now. done.
    + intros t now e [= <-]. reflexivity.
Defined.

(** * Further properties of the code *)

(** ** The input preparers *)

Section PreparersMore.
Context `{ActionSchema}.

(** X1.  The action config is made by the class of the kind of the action
    alone: what that class returns is stored in the field of the kind, the
    other fields staying [None]; what it raises is raised unchanged; the
    classes of the other kinds are not consulted; and a kind without a table
    entry raises the [KeyError] of the lookup. *)
Theorem prepare_action_input_by_kind (obj : Action) :
  prepare_action_input obj =
    match action_type obj with
    | NOTIFICATION =>
        (λ a, InputActionConfig.mk (Some a) None None) <$> DoNotification_validate obj
    | GENERIC_WEBHOOK =>
        (λ a, InputActionConfig.mk None (Some a) None) <$> DoWebhook_validate obj
    | NO_OP =>
        (λ a, InputActionConfig.mk None None (Some a)) <$> DoNothing_validate obj
    | QUEUE_JOB => Raise (Exn KeyError "QUEUE_JOB")
    end.
Proof.
  unfold prepare_action_input, dict_getitem.
  rewrite lookup_ACTION_CONFIG_KEYS.
  destruct (action_type obj); [done | | |]; simpl;
    unfold InputActionConfig_model_validate, validate_field;
    rewrite ?lookup_singleton_eq, ?lookup_singleton_ne by done.
  - by destruct (DoNotification_validate obj).
  - by destruct (DoWebhook_validate obj).
  - by destruct (DoNothing_validate obj).
Qed.

Lemma Automation_model_copy_empty (obj : Automation.t) :
  Automation_model_copy obj AutomationParams.empty = obj.
Proof. by destruct obj. Qed.

Lemma Automation_model_copy_merge (obj : Automation.t)
    (first second : AutomationParams.t) :
  Automation_model_copy (Automation_model_copy obj first) second
  = Automation_model_copy obj (AutomationParams_merge first second).
Proof.
  destruct first as [[?|] [?|] [?|] [?|] [?|] [?|]],
           second as [[?|] [?|] [?|] [?|] [?|] [?|]]; reflexivity.
Qed.

Lemma NewAutomation_model_copy_merge (obj : NewAutomation.t)
    (first second : AutomationParams.t) :
  NewAutomation_model_copy (NewAutomation_model_copy obj first) second
  = NewAutomation_model_copy obj (AutomationParams_merge first second).
Proof.
  destruct first as [[?|] [?|] [?|] [?|] [?|] [?|]],
           second as [[?|] [?|] [?|] [?|] [?|] [?|]]; reflexivity.
Qed.

(** X2.  Overrides compose: preparing a copy that was made with the overrides
    [first], under the overrides [second], gives what preparing the original
    under [{**first, **second}] gives, for the update and for the create
    payload; and a copy made with no override is prepared as the original
    is. *)
Theorem prepare_input_overrides_compose (first second : AutomationParams.t) :
  (∀ obj,
     prepare_update_input (Automation_model_copy obj first) second
     = prepare_update_input obj (AutomationParams_merge first second))
  ∧ (∀ obj,
       prepare_create_input (NewAutomation_model_copy obj first) second
       = prepare_create_input obj (AutomationParams_merge first second))
  ∧ (∀ obj,
       prepare_update_input (Automation_model_copy obj AutomationParams.empty) second
       = prepare_update_input obj second).
Proof.
  split; [| split]; intros obj.
  - unfold prepare_update_input. by rewrite Automation_model_copy_merge.
  - unfold prepare_create_input. by rewrite NewAutomation_model_copy_merge.
  - by rewrite Automation_model_copy_empty.
Qed.

(** X3.  Each part of the update payload follows one attribute of the
    automation.  Two calls on the same automation whose overrides agree on
    [scope] give the same scope type and scope id, whatever they do to the
    event, whose embedded scope is not read; if they agree on [event] they
    give the same event type and event filter; if they agree on [action],
    the same action type and action config. *)
Theorem prepare_update_input_frame (obj : Automation.t)
    (updates updates' : AutomationParams.t)
    (payload payload' : UpdateFilterTriggerInput.t) :
  prepare_update_input obj updates = Ok payload →
  prepare_update_input obj updates' = Ok payload' →
  UpdateFilterTriggerInput.id payload = UpdateFilterTriggerInput.id payload'
  ∧ (AutomationParams.scope updates = AutomationParams.scope updates' →
     UpdateFilterTriggerInput.scope_type payload
     = UpdateFilterTriggerInput.scope_type payload'
     ∧ UpdateFilterTriggerInput.scope_id payload
       = UpdateFilterTriggerInput.scope_id payload')
  ∧ (AutomationParams.event updates = AutomationParams.event updates' →
     UpdateFilterTriggerInput.triggering_event_type payload
     = UpdateFilterTriggerInput.triggering_event_type payload'
     ∧ UpdateFilterTriggerInput.event_filter payload
       = UpdateFilterTriggerInput.event_filter payload')
  ∧ (AutomationParams.action updates = AutomationParams.action updates' →
     UpdateFilterTriggerInput.triggered_action_type payload
     = UpdateFilterTriggerInput.triggered_action_type payload'
     ∧ UpdateFilterTriggerInput.triggered_action_config payload
       = UpdateFilterTriggerInput.triggered_action_config payload').
Proof.
  unfold prepare_update_input. simpl.
  intros (config & Hconfig & [= <-])%bind_Ok_inv
         (config' & Hconfig' & [= <-])%bind_Ok_inv. simpl.
  split; [done |]. split; [by intros -> |]. split; [by intros -> |].
  intros Haction. rewrite Haction in Hconfig. split; [by rewrite Haction |].
  congruence.
Qed.

End PreparersMore.

Lemma prepare_update_input_frame_witness :
  ∃ payload payload',
    @prepare_update_input example_schema example_saved
      (AutomationParams.mk None None None None
         (Some (Event.mk RUN_METRIC
                  (Scope.mk ARTIFACT_COLLECTION "QXJ0aWZhY3Q6MQ==" "my-collection")
                  example_filter)) None) = Ok payload
    ∧ @prepare_update_input example_schema example_saved AutomationParams.empty
      = Ok payload'
    ∧ UpdateFilterTriggerInput.scope_id payload = "UHJvamVjdDox"
    ∧ UpdateFilterTriggerInput.scope_id payload
      = UpdateFilterTriggerInput.scope_id payload'
    ∧ UpdateFilterTriggerInput.triggered_action_config payload
      = UpdateFilterTriggerInput.triggered_action_config payload'.
Proof.
  eexists _, _. split; [reflexivity |]. split; [reflexivity |].
  split; [reflexivity |].
  destruct (@prepare_update_input_frame example_schema example_saved
              (AutomationParams.mk None None None None
                 (Some (Event.mk RUN_METRIC
                          (Scope.mk ARTIFACT_COLLECTION "QXJ0aWZhY3Q6MQ==" "my-collection")
                          example_filter)) None)
              AutomationParams.empty _ _ eq_refl eq_refl)
    as (_ & Hscope & _ & Haction).
  split; [by apply Hscope | by apply Haction].
Defined.

(** ** The paginated listing *)

Section ListingMore.
Context `{ListingSchema}.

(** X4.  [_update_response] succeeds exactly when the transport returns data
    in which [data["searchScope"]["projects"]] exists and validates as a
    page; the page is then stored as the last response, and the client, the
    variables, the page size and the query of the paginator are left as they
    were. *)
Theorem update_response_succeeds_iff (self self' : Paginator) :
  _update_response self = Ok self' ↔
  ∃ data search_scope page_data page,
    client self (_query self) (variables self) = Ok data
    ∧ getitem data "searchScope" = Ok search_scope
    ∧ getitem search_scope "projects" = Ok page_data
    ∧ ProjectConnectionFields_model_validate page_data = Ok page
    ∧ last_response self' = Some page
    ∧ client self' = client self
    ∧ variables self' = variables self
    ∧ per_page self' = per_page self
    ∧ _query self' = _query self.
Proof.
  split.
  - intros Hok. apply _update_response_Ok_inv in Hok
      as (data & scope & page_data & page & Hdata & Hscope & Hprojects & Hpage & ->).
    by exists data, scope, page_data, page.
  - intros (data & scope & page_data & page & Hdata & Hscope & Hprojects & Hpage
            & Hlast & Hclient & Hvars & Hper & Hquery).
    rewrite (_update_response_well_shaped self data scope page_data page) by done.
    f_equal. destruct self'. simpl in *. unfold set_last_response. by subst.
Qed.

(** X5.  A response that lacks the key [searchScope], or whose search scope
    lacks the key [projects], or whose page the page model rejects with an
    exception of one of the classes of the [except] clause, makes
    [_update_response] raise [ValueError("Unexpected response data")]. *)
Theorem update_response_malformed_ValueError (self : Paginator)
    (d : gmap string json) :
  client self (_query self) (variables self) = Ok (JDict d) →
  d !! "searchScope" = None
  ∨ (∃ d', d !! "searchScope" = Some (JDict d') ∧ d' !! "projects" = None)
  ∨ (∃ d' page_data e,
       d !! "searchScope" = Some (JDict d')
       ∧ d' !! "projects" = Some page_data
       ∧ ProjectConnectionFields_model_validate page_data = Raise e
       ∧ isinstance_any e [LookupError; AttributeError; ValidationError] = true) →
  _update_response self = Raise (Exn ValueError "Unexpected response data").
Proof.
  intros Hdata [Hscope | [(d' & Hscope & Hprojects)
                         | (d' & page_data & e & Hscope & Hprojects & Hpage & He)]].
  - by apply (_update_response_missing_key self d).
  - apply (_update_response_wraps self (JDict d) (Exn KeyError "projects"));
      [done | | done].
    unfold parse_page. simpl. unfold dict_getitem. rewrite Hscope. simpl.
    unfold dict_getitem. by rewrite Hprojects.
  - apply (_update_response_wraps self (JDict d) e); [done | | done].
    unfold parse_page. simpl. unfold dict_getitem. rewrite Hscope. simpl.
    unfold dict_getitem. rewrite Hprojects. simpl. by rewrite Hpage.
Qed.

(** X6.  What [_update_response] can raise: the exception of the transport,
    unchanged, since the request is made outside the [try] block; the
    [ValueError] of the [except] clause; the [TypeError] of a subscript, when
    the data or its search scope is not a dictionary; or an exception of the
    page model that is of none of the three classes of the [except]
    clause. *)
Theorem update_response_raises_cases (self : Paginator) (e : exn) :
  _update_response self = Raise e →
  client self (_query self) (variables self) = Raise e
  ∨ e = Exn ValueError "Unexpected response data"
  ∨ (∃ data, client self (_query self) (variables self) = Ok data
             ∧ (∀ d, data ≠ JDict d) ∧ exn_type e = TypeError)
  ∨ (∃ data search_scope,
       client self (_query self) (variables self) = Ok data
       ∧ getitem data "searchScope" = Ok search_scope
       ∧ (∀ d, search_scope ≠ JDict d) ∧ exn_type e = TypeError)
  ∨ (∃ page_data,
       ProjectConnectionFields_model_validate page_data = Raise e
       ∧ isinstance_any e [LookupError; AttributeError; ValidationError] = false).
Proof.
  unfold _update_response.
  destruct (client self _ _) as [data|e0] eqn:Hdata; [| intros [= <-]; auto].
  cbn [mbind result_bind]. unfold try_except.
  destruct (parse_page self data) as [self'|e0] eqn:Hparse; [done |].
  destruct (isinstance_any e0 _) eqn:Hcaught; intros [= <-]; [auto |].
  right. right. unfold parse_page in Hparse.
  destruct (getitem data "searchScope") as [scope|e1] eqn:Hscope.
  - cbn [mbind result_bind] in Hparse.
    destruct (getitem scope "projects") as [page_data|e2] eqn:Hprojects.
    + cbn [mbind result_bind] in Hparse.
      destruct (ProjectConnectionFields_model_validate page_data) as [page|e3]
        eqn:Hpage; [done |].
      injection Hparse as ->. right. right. by exists page_data.
    + injection Hparse as ->. right. left. exists data, scope.
      destruct scope; simpl in Hprojects; try by injection Hprojects as <-.
      unfold dict_getitem in Hprojects. destruct (d !! "projects"); [done |].
      by injection Hprojects as <-.
  - injection Hparse as ->. left. exists data.
    destruct data; simpl in Hscope; try by injection Hscope as <-.
    unfold dict_getitem in Hscope. destruct (d !! "searchScope"); [done |].
    by injection Hscope as <-.
Qed.

Lemma for_each_first_failure {A B} (f : A → result B) (good : list A) (bad : A)
    (rest : list A) (e : exn) :
  Forall (λ x, is_Ok (f x)) good →
  f bad = Raise e →
  for_each f (good ++ bad :: rest)%list = Raise e.
Proof.
  intros Hgood Hbad. induction Hgood as [|x good [y Hy] _ IH]; simpl.
  - by rewrite Hbad.
  - by rewrite Hy, IH.
Qed.

(** X7.  [convert_objects] gives no partial result: when a record of the
    page does not decode, and the records before it do, the call raises the
    exception of that record, whatever the records after it are. *)
Theorem convert_objects_first_failure (self : Paginator)
    (page : ProjectConnectionFields) (good : list TriggerFields)
    (bad : TriggerFields) (rest : list TriggerFields) (e : exn) :
  last_response self = Some page →
  page_triggers page = (good ++ bad :: rest)%list →
  Forall (λ obj, is_Ok (decode obj)) good →
  decode bad = Raise e →
  convert_objects self = Raise e.
Proof.
  intros Hpage Hsplit Hgood Hbad. unfold convert_objects.
  rewrite Hpage, Hsplit. by apply (for_each_first_failure decode).
Qed.

End ListingMore.

Lemma update_response_succeeds_iff_witness :
  @_update_response example_listing (AutomationsByEntity example_client ∅ 50)
  = Ok example_fetched.
Proof.
  apply (@update_response_succeeds_iff example_listing).
  eexists _, _, _, example_fetched_page.
  repeat split; reflexivity.
Defined.

Lemma update_response_malformed_ValueError_witness :
  @_update_response example_listing
    (AutomationsForViewer (λ _ _, Ok (JDict {[ "searchScope" := JDict ∅ ]})) ∅ 50)
  = Raise (Exn ValueError "Unexpected response data").
Proof.
  apply (@update_response_malformed_ValueError example_listing _
           {[ "searchScope" := JDict ∅ ]}); [reflexivity |].
  right. left. by exists ∅.
Defined.

Lemma update_response_raises_cases_witness :
  let self := AutomationsByEntity (λ _ _, Ok example_null_scope) ∅ 50 in
  let e := Exn TypeError "'NoneType' object is not subscriptable" in
  client self (_query self) (variables self) = Raise e
  ∨ e = Exn ValueError "Unexpected response data"
  ∨ (∃ data, client self (_query self) (variables self) = Ok data
             ∧ (∀ d, data ≠ JDict d) ∧ exn_type e = TypeError)
  ∨ (∃ data search_scope,
       client self (_query self) (variables self) = Ok data
       ∧ getitem data "searchScope" = Ok search_scope
       ∧ (∀ d, search_scope ≠ JDict d) ∧ exn_type e = TypeError)
  ∨ (∃ page_data,
       example_page_validate page_data = Raise e
       ∧ isinstance_any e [LookupError; AttributeError; ValidationError] = false).
Proof.
  intros self e.
  apply (@update_response_raises_cases example_listing self e). reflexivity.
Defined.

Lemma convert_objects_first_failure_witness :
  @convert_objects example_listing
    (set_last_response (AutomationsByEntity example_client ∅ 50)
       {| page_info := {| has_next_page := false; end_cursor := None |};
          edges := [ {| node := {| triggers := [example_trigger "automation-0";
                                                 JNull;
                                                 example_trigger "automation-2"] |} |} ] |})
  = Raise (Exn ValidationError "Automation").
Proof.
  eapply (@convert_objects_first_failure example_listing _ _
            [example_trigger "automation-0"] JNull [example_trigger "automation-2"]).
  - reflexivity.
  - reflexivity.
  - repeat constructor. by eexists.
  - reflexivity.
Defined.

(** ** The service connection *)

Lemma _get_service_connection_matches (ensure_service : result ServiceConnection)
    (self : ServiceApi) :
  finalizer_matches self →
  finalizer_matches (_get_service_connection ensure_service self).2.
Proof.
  destruct self as [settings connection api_id registered].
  unfold finalizer_matches, _get_service_connection. simpl.
  destruct connection as [conn|]; [done |].
  intros [_ Hnone]. rewrite (Hnone eq_refl).
  destruct ensure_service as [conn|e]; simpl; [| done].
  destruct (api_init_request conn settings); simpl; [| done].
  split; [| done]. split; [by eexists | done].
Qed.

Lemma _get_service_connection_connected (ensure_service : result ServiceConnection)
    (self : ServiceApi) (conn : ServiceConnection) :
  _service_connection self = Some conn →
  _get_service_connection ensure_service self = (Ok conn, self).
Proof. intros Hconn. unfold _get_service_connection. by rewrite Hconn. Qed.

Lemma _get_service_connection_Ok (ensure_service : result ServiceConnection)
    (self self' : ServiceApi) (conn : ServiceConnection) :
  _get_service_connection ensure_service self = (Ok conn, self') →
  _service_connection self' = Some conn.
Proof.
  unfold _get_service_connection.
  destruct (_service_connection self) as [conn0|] eqn:Hconn.
  - by intros [= <- <-].
  - destruct ensure_service as [conn0|e]; [| done].
    destruct (api_init_request conn0 (_settings self)); [| done].
    by intros [= <- <-].
Qed.

(** X8.  The connection is made once.  After a call of
    [_get_service_connection] that returned a connection, every later call
    returns that connection and changes nothing, whatever [ensure_service]
    would return or raise then: the service is not asked again, no second
    init request is sent and no second finalizer is registered. *)
Theorem get_service_connection_once (ensure_service : result ServiceConnection)
    (self self' : ServiceApi) (conn : ServiceConnection) :
  _get_service_connection ensure_service self = (Ok conn, self') →
  ∀ ensure_service', _get_service_connection ensure_service' self' = (Ok conn, self').
Proof.
  intros Hfirst ensure_service'.
  by eapply _get_service_connection_connected, _get_service_connection_Ok.
Qed.

(** X9.  When the init request raises on a new [ServiceApi], the exception
    is raised but the connection stays assigned: every later call returns
    that connection without sending an init request again, the api id is
    still the one made up at construction, and no finalizer is registered,
    so that finalization sends no clean-up request. *)
Theorem get_service_connection_failed_init (settings uuid : string)
    (conn : ServiceConnection) (e : exn) :
  api_init_request conn settings = Raise e →
  ∃ self,
    _get_service_connection (Ok conn) (ServiceApi_init settings uuid) = (Raise e, self)
    ∧ (∀ ensure_service, _get_service_connection ensure_service self = (Ok conn, self))
    ∧ _api_id self = uuid
    ∧ ∀ sent, finalize self sent = (Ok (), sent).
Proof.
  intros Hinit. unfold _get_service_connection. simpl. rewrite Hinit.
  eexists. split; [reflexivity |]. by repeat split.
Qed.

(** X10.  Whatever calls of [_get_service_connection] are made on a new
    [ServiceApi], and whatever the service returns or raises at each of
    them, a finalizer that is registered is for the connection in use and
    for the api id in use, and the settings are the ones given at
    construction. *)
Theorem finalizer_matches_after_calls (settings uuid : string)
    (ensure_service : list (result ServiceConnection)) :
  let self := after_calls (ServiceApi_init settings uuid) ensure_service in
  finalizer_matches self ∧ _settings self = settings.
Proof.
  unfold after_calls.
  assert (finalizer_matches (ServiceApi_init settings uuid)
          ∧ _settings (ServiceApi_init settings uuid) = settings) as Hinit by done.
  revert Hinit. generalize (ServiceApi_init settings uuid).
  induction ensure_service as [|es rest IH]; intros self [Hmatch Hsettings]; [done |].
  apply IH. split; [by apply _get_service_connection_matches |].
  unfold _get_service_connection.
  destruct (_service_connection self); [done |].
  destruct es as [conn|]; [| done].
  by destruct (api_init_request conn (_settings self)).
Qed.

(** X11.  A request is sent over the connection of the [ServiceApi] with,
    in its [id] field, the api id that the [ServiceApi] has once the
    connection is there.  When the call makes the connection, this is the id
    of the init response.  When the connection was there before, it is the
    api id as it was: the id of the init response of the call that made the
    connection or, when that init request had failed, still the uuid of the
    construction.  Two requests in a row go over the same connection with
    the same id, the second without asking the service for a connection; and
    when no connection can be made the request is neither sent nor assigned
    to. *)
Theorem send_api_request_id {Timeout ApiResponse : Type}
    (api_request : ServiceConnection → ApiRequest → Timeout → result ApiResponse)
    (ensure_service : result ServiceConnection) (self : ServiceApi)
    (request : ApiRequest) (timeout : Timeout) :
  match _get_service_connection ensure_service self with
  | (Ok conn, self') =>
      send_api_request ensure_service api_request self request timeout
      = (api_request conn (set_request_id request (_api_id self')) timeout,
         self', set_request_id request (_api_id self'))
      ∧ (_service_connection self = None →
         ensure_service = Ok conn
         ∧ api_init_request conn (_settings self) = Ok (_api_id self'))
      ∧ (is_Some (_service_connection self) →
         _service_connection self = Some conn ∧ self' = self)
      ∧ ∀ ensure_service' request' timeout',
          send_api_request ensure_service' api_request self' request' timeout'
          = (api_request conn (set_request_id request' (_api_id self')) timeout',
             self', set_request_id request' (_api_id self'))
  | (Raise e, self') =>
      send_api_request ensure_service api_request self request timeout
      = (Raise e, self', request)
  end.
Proof.
  unfold send_api_request.
  destruct (_get_service_connection ensure_service self) as [[conn|e] self']
    eqn:Hfirst; [| done].
  split; [done |]. split_and!.
  - revert Hfirst. unfold _get_service_connection. intros Hfirst Hnone.
    rewrite Hnone in Hfirst.
    destruct ensure_service as [conn'|e]; [| done].
    destruct (api_init_request conn' (_settings self)) as [response_id|e] eqn:Hinit;
      [| done].
    by injection Hfirst as <- <-.
  - revert Hfirst. unfold _get_service_connection. intros Hfirst [conn' Hsome].
    rewrite Hsome in Hfirst. by injection Hfirst as <- <-.
  - intros ensure_service' request' timeout'.
    by rewrite (_get_service_connection_connected ensure_service' self' conn
                  (_get_service_connection_Ok _ _ _ _ Hfirst)).
Qed.

(** After an init request that failed, the connection is there and a request
    is sent with the uuid of the construction. *)
Example send_api_request_after_failed_init :
  let self :=
    (_get_service_connection (Ok example_broken_connection)
       (ServiceApi_init "settings" "uuid-1")).2 in
  send_api_request (Ok example_connection)
    (λ (conn : ServiceConnection) (request : ApiRequest) (timeout : Z),
       Ok (request_id request))
    self {| request_id := ""; request_body := "body" |} 1
  = (Ok "uuid-1", self, {| request_id := "uuid-1"; request_body := "body" |}).
Proof. reflexivity. Qed.

Lemma get_service_connection_once_witness :
  ∃ self,
    _get_service_connection (Ok example_connection) (ServiceApi_init "settings" "uuid-1")
    = (Ok example_connection, self)
    ∧ _get_service_connection (Raise (Exn RuntimeError "service is down")) self
      = (Ok example_connection, self).
Proof.
  eexists. split; [reflexivity |].
  by apply (get_service_connection_once (Ok example_connection)
              (ServiceApi_init "settings" "uuid-1")).
Defined.

Lemma get_service_connection_failed_init_witness :
  ∃ self,
    _get_service_connection (Ok example_broken_connection)
      (ServiceApi_init "settings" "uuid-1")
    = (Raise (Exn RuntimeError "init failed"), self)
    ∧ _get_service_connection (Ok example_connection) self
      = (Ok example_broken_connection, self)
    ∧ _api_id self = "uuid-1"
    ∧ finalize self [] = (Ok (), []).
Proof.
  destruct (get_service_connection_failed_init "settings" "uuid-1"
              example_broken_connection (Exn RuntimeError "init failed") eq_refl)
    as (self & Hfirst & Hlater & Hid & Hfinal).
  exists self. split; [exact Hfirst |]. split; [apply Hlater |].
  split; [exact Hid | apply Hfinal].
Defined.

(** ** Waiting for the health checks *)

Section WaitingMore.
Variable net : Network.
Variable health_url : string.
Variable timeout : Z.

Lemma loop_body_Returns (start_time now now' : Z) :
  loop_body net health_url timeout start_time now = (Returns, now') →
  poll net health_url timeout start_time now = (Response 200, now' - now).
Proof.
  unfold loop_body, poll. destruct (net _ _ _) as [outcome took].
  destruct outcome as [status|e].
  - case_bool_decide as Hstatus; [| by case_bool_decide].
    intros [= <-]. subst status. f_equal. lia.
  - by repeat case_match.
Qed.

Lemma wait_loop_Ok (fuel : nat) (start_time now now' : Z) :
  time_passes net →
  wait_loop fuel net health_url timeout start_time now = Some (Ok (), now') →
  ∃ t, now ≤ t
       ∧ poll net health_url timeout start_time t = (Response 200, now' - t).
Proof.
  intros Htime. revert now. induction fuel as [|fuel IH]; intros now; [done |].
  simpl. destruct (loop_body _ _ _ _ _) as [[|e|] now''] eqn:Hbody; [| done |].
  - intros [= <-]. exists now. split; [lia |]. by apply loop_body_Returns.
  - intros (t & Ht & Hpoll)%IH. exists t. split; [| done].
    destruct (loop_body_clock _ _ _ _ _ _ _ Htime Hbody) as [Hle _]. lia.
Qed.

(** X12.  A wait that returns normally has seen an HTTP 200: it ends with a
    request, made at or after the start of the wait, that was answered with
    HTTP 200, at the moment that answer came. *)
Theorem wait_for_http_200_sound (fuel : nat) (now now' : Z) :
  time_passes net →
  _wait_for_http_200 fuel net health_url timeout now = Some (Ok (), now') →
  ∃ t, now ≤ t ≤ now'
       ∧ net health_url (Z.max 1000 (time_remaining timeout now t)) t
         = (Response 200, now' - t).
Proof.
  intros Htime Hok. unfold _wait_for_http_200 in Hok.
  destruct (wait_loop_Ok _ _ _ _ Htime Hok) as (t & Ht & Hpoll).
  exists t. split; [| exact Hpoll].
  pose proof (Htime health_url (Z.max 1000 (time_remaining timeout now t)) t) as Htook.
  unfold poll in Hpoll. rewrite Hpoll in Htook. simpl in Htook. lia.
Qed.

(** X13.  How the exception of a request ends or does not end the wait.  A
    read timeout ends it at once with [TimeoutError], also when time remains.
    A connect timeout, which is a connection error as well as a timeout,
    is caught by the first [except] clause: it is swallowed and, when time
    remains, the next request is made a second later.  An exception that is
    neither a connection error nor a timeout of [requests] is raised
    unchanged. *)
Theorem wait_for_http_200_request_raises (fuel : nat) (now : Z) (e : exn) :
  let took := (poll net health_url timeout now now).2 in
  (poll net health_url timeout now now).1 = RequestRaises e →
  (exn_type e = requests_ReadTimeout →
   _wait_for_http_200 (S fuel) net health_url timeout now
   = Some (Raise (Exn TimeoutError ""), now + took))
  ∧ (exn_type e = requests_ConnectTimeout →
     0 < time_remaining timeout now (now + took) →
     _wait_for_http_200 (S fuel) net health_url timeout now
     = wait_loop fuel net health_url timeout now (now + took + 1000))
  ∧ (isinstance_any e [requests_ConnectionError; requests_Timeout] = false →
     _wait_for_http_200 (S fuel) net health_url timeout now
     = Some (Raise e, now + took)).
Proof.
  intros took Hraises. subst took. unfold _wait_for_http_200, poll in *.
  cbn [wait_loop]. unfold loop_body.
  destruct (net _ _ _) as [outcome t]. simpl in *. subst outcome.
  destruct e as [class msg]. simpl.
  split; [by intros -> |]. split.
  - intros -> Hleft.
    change (isinstance (Exn requests_ConnectTimeout msg) requests_ConnectionError)
      with true.
    cbn match. by rewrite bool_decide_eq_false_2 by lia.
  - unfold isinstance_any, existsb.
    destruct (isinstance _ requests_ConnectionError); [done |].
    by destruct (isinstance _ requests_Timeout).
Qed.

(** X15.  With a timeout of zero or less the wait makes exactly one request:
    it returns normally when that request is answered with HTTP 200, it raises
    what an exception that is neither connection error nor timeout, and it
    raises [TimeoutError] in every other case. *)
Theorem wait_for_http_200_no_timeout (fuel : nat) (now : Z) :
  timeout ≤ 0 →
  0 ≤ (poll net health_url timeout now now).2 →
  _wait_for_http_200 (S fuel) net health_url timeout now
  = Some
      (match (poll net health_url timeout now now).1 with
       | Response status_code =>
           if bool_decide (status_code = 200) then Ok ()
           else Raise (Exn TimeoutError "")
       | RequestRaises e =>
           if isinstance_any e [requests_ConnectionError; requests_Timeout]
           then Raise (Exn TimeoutError "")
           else Raise e
       end,
       now + (poll net health_url timeout now now).2).
Proof.
  intros Htimeout. unfold _wait_for_http_200, poll. cbn [wait_loop].
  unfold loop_body. destruct (net _ _ _) as [outcome took]. simpl. intros Htook.
  rewrite bool_decide_eq_true_2 by (unfold time_remaining; lia).
  destruct outcome as [status|e]; [by case_bool_decide |].
  unfold isinstance_any, existsb.
  destruct (isinstance e requests_ConnectionError); [done |].
  by destruct (isinstance e requests_Timeout).
Qed.

End WaitingMore.

(** X16.  [wait_until_healthy] returns normally only when both health URLs
    were answered with HTTP 200, the ready URL of the base port first and
    the health URL of the fixture port after it, by requests made at or after
    the start of the call. *)
Theorem wait_until_healthy_sound (fuel : nat) (net : Network) (self : _ServerInfo)
    (timeout now now' : Z) :
  time_passes net →
  wait_until_healthy fuel net self timeout now = Some (Ok (), now') →
  ∃ t1 took1 limit1 t2 took2 limit2,
    net (app_health_url self) limit1 t1 = (Response 200, took1)
    ∧ net (fixtures_health_url self) limit2 t2 = (Response 200, took2)
    ∧ now ≤ t1 ∧ t1 + took1 ≤ t2 ∧ t2 + took2 = now'.
Proof.
  intros Htime. unfold wait_until_healthy.
  fold (app_health_url self). fold (fixtures_health_url self).
  destruct (_wait_for_http_200 fuel net (app_health_url self) timeout now)
    as [[[[]|e] mid]|] eqn:Hfirst; [| done | done].
  intros Hsecond.
  unfold _wait_for_http_200 in Hfirst, Hsecond.
  destruct (wait_loop_Ok _ _ _ _ _ _ _ Htime Hfirst) as (t1 & Ht1 & Hp1).
  destruct (wait_loop_Ok _ _ _ _ _ _ _ Htime Hsecond) as (t2 & Ht2 & Hp2).
  eexists t1, _, _, t2, _, _. split; [exact Hp1 |]. split; [exact Hp2 |]. lia.
Qed.

Lemma wait_for_http_200_sound_witness :
  ∃ t, 0 ≤ t ≤ 2300
       ∧ example_slow_start "http://localhost:8080/ready"
           (Z.max 1000 (time_remaining 2 0 t)) t
         = (Response 200, 2300 - t).
Proof.
  apply (wait_for_http_200_sound example_slow_start "http://localhost:8080/ready"
           2 2 0 2300).
  - intros url t now. unfold example_slow_start. case_bool_decide; simpl; lia.
  - reflexivity.
Defined.

Lemma wait_for_http_200_request_raises_witness :
  _wait_for_http_200 1 example_silent "http://localhost:8080/ready" 30 0
  = Some (Raise (Exn TimeoutError ""), 30000).
Proof.
  destruct (wait_for_http_200_request_raises example_silent
              "http://localhost:8080/ready" 30 0 0
              (Exn requests_ReadTimeout "Read timed out.") eq_refl)
    as (Hread & _ & _).
  by apply Hread.
Defined.

Lemma wait_for_http_200_no_timeout_witness :
  _wait_for_http_200 1 example_slow_start "http://localhost:8080/ready" 0 1500
  = Some (Ok (), 2300).
Proof.
  by apply (wait_for_http_200_no_timeout example_slow_start
              "http://localhost:8080/ready" 0 0 1500).
Defined.

Lemma wait_until_healthy_sound_witness :
  ∃ t1 took1 limit1 t2 took2 limit2,
    example_slow_start "http://localhost:8080/ready" limit1 t1 = (Response 200, took1)
    ∧ example_slow_start "http://localhost:9015/health" limit2 t2
      = (Response 200, took2)
    ∧ 0 ≤ t1 ∧ t1 + took1 ≤ t2 ∧ t2 + took2 = 3100.
Proof.
  apply (wait_until_healthy_sound 2 example_slow_start example_server 2 0 3100).
  - intros url t now. unfold example_slow_start. case_bool_decide; simpl; lia.
  - reflexivity.
Defined.

(** ** The state file and the commands *)

Lemma dict_get_filter_ne {V} (d : list (string * V)) (key key' : string) :
  dict_get (filter (λ kv, kv.1 ≠ key) d) key'
  = if bool_decide (key' = key) then None else dict_get d key'.
Proof.
  induction d as [|[k v] d IH]; simpl; [by case_bool_decide |].
  rewrite filter_cons. simpl.
  destruct (decide (k ≠ key)) as [Hne|Heq%dec_stable]; simpl.
  - rewrite IH. repeat case_bool_decide; congruence.
  - rewrite IH. repeat case_bool_decide; congruence.
Qed.

Lemma dict_get_is_Some {V} (d : list (string * V)) (key : string) :
  is_Some (dict_get d key) ↔ key ∈ dict_keys d.
Proof.
  unfold dict_keys. induction d as [|[k v] d IH]; simpl.
  - split; [by intros [? [=]] | by intros ?%elem_of_nil].
  - rewrite elem_of_cons. case_bool_decide; [naive_solver |].
    rewrite IH. naive_solver.
Qed.

Lemma dict_set_fresh {V} (d : list (string * V)) (key : string) (value : V) :
  key ∉ dict_keys d → dict_set d key value = (d ++ [(key, value)])%list.
Proof.
  unfold dict_keys. induction d as [|[k v] d IH]; simpl; [done |].
  rewrite not_elem_of_cons. intros [Hne Hd].
  rewrite bool_decide_eq_false_2 by done. by rewrite IH.
Qed.

Lemma filter_ne_fresh {V} (d : list (string * V)) (key : string) :
  key ∉ dict_keys d → filter (λ kv, kv.1 ≠ key) d = d.
Proof.
  unfold dict_keys. induction d as [|[k v] d IH]; simpl; [done |].
  rewrite not_elem_of_cons. intros [Hne Hd].
  rewrite filter_cons_True by done. by rewrite IH.
Qed.

Lemma filter_all_in {A} (P : A → Prop) `{∀ x, Decision (P x)} (l : list A) :
  (∀ x, x ∈ l → P x) → filter P l = l.
Proof.
  induction l as [|x l IH]; intros HP; [done |].
  rewrite filter_cons_True by (apply HP; by left).
  f_equal. apply IH. intros y Hy. apply HP. by right.
Qed.

Lemma filter_all {A} (P : A → Prop) `{∀ x, Decision (P x)} (l : list A) :
  (∀ x, P x) → filter P l = l.
Proof.
  intros HP. induction l as [|x l IH]; [done |].
  rewrite filter_cons_True by done. by f_equal.
Qed.

Lemma dict_get_app_fresh {V} (d : list (string * V)) (key : string) (value : V) :
  key ∉ dict_keys d → dict_get (d ++ [(key, value)])%list key = Some value.
Proof.
  unfold dict_keys. induction d as [|[k v] d IH]; simpl.
  - by rewrite bool_decide_eq_true_2.
  - rewrite not_elem_of_cons. intros [Hne Hd].
    rewrite bool_decide_eq_false_2 by done. by apply IH.
Qed.

Lemma filter_notin_app_fresh {V} (d : list (string * V)) (key : string) (value : V) :
  key ∉ dict_keys d →
  filter (λ kv, kv.1 ∉ [key]) (d ++ [(key, value)])%list = d.
Proof.
  intros Hfresh. rewrite filter_app, filter_cons_False, filter_nil, app_nil_r.
  - apply filter_all_in. intros [k v] Hin. simpl. rewrite list_elem_of_singleton.
    intros ->. apply Hfresh. unfold dict_keys. apply list_elem_of_fmap.
    by exists (key, v).
  - simpl. rewrite list_elem_of_singleton. by intros Hne.
Qed.

Lemma filter_none {A} (P : A → Prop) `{∀ x, Decision (P x)} (l : list A) :
  Forall (λ x, ¬ P x) l → filter P l = [].
Proof.
  induction 1 as [|x l Hx _ IH]; [done |]. by rewrite filter_cons_False.
Qed.

Section Commands.
Context `{InfoFileCodec}.

(** X18.  Reading the state file never fails: an empty file and a file that
    the model does not accept, whatever exception it raises, both give the
    state with no servers; any other file gives the state it holds. *)
Theorem read_info_file_total (content : string) :
  read_info_file content
  = Ok (if bool_decide (content = "") then {| servers := [] |}
        else match _InfoFile_model_validate_json content with
             | Ok state => state
             | Raise _ => {| servers := [] |}
             end).
Proof.
  unfold read_info_file, try_except. case_bool_decide; [done |].
  destruct (_InfoFile_model_validate_json content) as [state|e]; [done |].
  unfold isinstance_any, existsb. by rewrite isinstance_Exception.
Qed.

Section Stop.
Variable _stop_container : string → result unit.

(** What one turn of the loop of [stop] does. *)
Lemma stop_turn_spec (all_good : bool) (info : _InfoFile) (removed : list string)
    (n : string) :
  ∃ all_good1 removed1,
    stop_turn _stop_container (all_good, info, removed) n
    = (all_good1, {| servers := filter (λ kv, kv.1 ≠ n) (servers info) |}, removed1)
    ∧ (∀ name, name ∈ removed1 ↔
         name ∈ removed
         ∨ (name = n
            ∧ ∃ server, dict_get (servers info) n = Some server
                        ∧ managed server = true))
    ∧ (all_good1 = true ↔
         all_good = true
         ∧ ∃ server, dict_get (servers info) n = Some server
                     ∧ (managed server = true → is_Ok (_stop_container n))).
Proof.
  unfold stop_turn, dict_pop.
  destruct (dict_get (servers info) n) as [server|] eqn:Hget.
  - destruct (managed server) eqn:Hmanaged; simpl.
    + destruct (_stop_container n) as [[]|e] eqn:Hstop.
      * eexists _, _. split; [reflexivity |]. split.
        -- intros name. rewrite elem_of_app, list_elem_of_singleton.
           split; [intros [? | ->]; [by left | right; eauto] | intros [? | [-> _]]; auto].
        -- split; [| by intros [-> _]].
           intros ->. split; [done |]. exists server. split; [done |].
           intros _. by exists ().
      * eexists _, _. split; [reflexivity |]. split.
        -- intros name. rewrite elem_of_app, list_elem_of_singleton.
           split; [intros [? | ->]; [by left | right; eauto] | intros [? | [-> _]]; auto].
        -- split; [done |]. intros [_ (server' & [= <-] & Hok)].
           destruct (Hok Hmanaged) as [? [=]].
    + eexists _, _. split; [reflexivity |]. split.
      * intros name. split; [by left |].
        intros [?|[_ (server' & [= <-] & Hm)]]; [done | congruence].
      * split; [| by intros [-> _]].
        intros ->. split; [done |]. exists server. split; [done | congruence].
  - eexists _, _. split; [reflexivity |]. split.
    + intros name. split; [by left | by intros [?|[_ (server & [=] & _)]]].
    + split; [done | by intros [_ (server & [=] & _)]].
Qed.

(** What the loop of [stop] has done after its last turn. *)
Lemma stop_loop (names : list string) (all_good : bool) (info : _InfoFile)
    (removed : list string) :
  ∃ all_good' removed',
    foldl (stop_turn _stop_container) (all_good, info, removed) names
    = (all_good',
       {| servers := filter (λ kv, kv.1 ∉ names) (servers info) |},
       removed')
    ∧ (∀ name, name ∈ removed' ↔
         name ∈ removed
         ∨ (name ∈ names
            ∧ ∃ server, dict_get (servers info) name = Some server
                        ∧ managed server = true))
    ∧ (all_good' = true ↔
         all_good = true
         ∧ NoDup names
         ∧ ∀ name, name ∈ names →
             ∃ server, dict_get (servers info) name = Some server
                       ∧ (managed server = true → is_Ok (_stop_container name))).
Proof.
  revert all_good info removed.
  induction names as [|n rest IH]; intros all_good info removed.
  { exists all_good, removed. simpl. split; [| split].
    - rewrite filter_all by (intros kv; apply not_elem_of_nil). by destruct info.
    - intros name. split; [by left | intros [?|[?%elem_of_nil _]]; done].
    - split; [| by intros [-> _]].
      intros ->. split; [done |]. split; [constructor |].
      by intros ? ?%elem_of_nil. }
  cbn [foldl].
  destruct (stop_turn_spec all_good info removed n)
    as (all_good1 & removed1 & -> & Hremoved1 & Hgood1).
  destruct (IH all_good1 {| servers := filter (λ kv, kv.1 ≠ n) (servers info) |}
              removed1) as (all_good' & removed' & -> & Hremoved' & Hgood').
  exists all_good', removed'. cbn [servers] in *. split; [| split].
  - rewrite list_filter_filter.
    rewrite (list_filter_iff _ (λ kv, kv.1 ∉ n :: rest)); [done |].
    intros [k v]. simpl. rewrite not_elem_of_cons. tauto.
  - intros name. rewrite Hremoved', Hremoved1, elem_of_cons. split.
    + intros [[Hin | [-> Hn]] | [Hin (server & Hget & Hm)]].
      * by left.
      * right. split; [by left | done].
      * rewrite dict_get_filter_ne in Hget.
        case_bool_decide; [done |]. right. split; [by right | eauto].
    + intros [Hin | [[-> | Hin] (server & Hget & Hm)]].
      * by left; left.
      * left. right. eauto.
      * destruct (decide (name = n)) as [-> | Hne].
        -- left. right. eauto.
        -- right. split; [done |]. exists server.
           by rewrite dict_get_filter_ne, bool_decide_eq_false_2.
  - rewrite Hgood', Hgood1, NoDup_cons. split.
    + intros ((Hgood & server & Hget & Hstop) & Hnodup & Hrest).
      split; [done |]. split; [split; [| done] |].
      * intros Hin. destruct (Hrest n Hin) as (server' & Hget' & _).
        rewrite dict_get_filter_ne, bool_decide_eq_true_2 in Hget' by done. done.
      * intros name [-> | Hin]%elem_of_cons; [eauto |].
        destruct (Hrest name Hin) as (server' & Hget' & Hstop').
        rewrite dict_get_filter_ne in Hget'. case_bool_decide; [done | eauto].
    + intros (Hgood & [Hnotin Hnodup] & Hall).
      split; [split; [done |]; apply Hall; by left |]. split; [done |].
      intros name Hin. destruct (Hall name) as (server & Hget & Hstop); [by right |].
      exists server. split; [| done].
      rewrite dict_get_filter_ne, bool_decide_eq_false_2; [done |].
      by intros ->.
Qed.

Lemma stop_spec (names : list string) (content : string) (info : _InfoFile) :
  read_info_file content = Ok info →
  (names_to_stop names info = [] ∧ stop _stop_container names content
                                   = (SysExit 1, content, []))
  ∨ (names_to_stop names info ≠ []
     ∧ ∃ (all_good : bool) (removed : list string),
         stop _stop_container names content
         = (if all_good then Completed () else SysExit 1,
            _InfoFile_model_dump_json
              {| servers :=
                   filter (λ kv, kv.1 ∉ names_to_stop names info) (servers info) |},
            removed)
         ∧ (∀ name, name ∈ removed ↔
              name ∈ names_to_stop names info
              ∧ ∃ server, dict_get (servers info) name = Some server
                          ∧ managed server = true)
         ∧ (all_good = true ↔
              NoDup (names_to_stop names info)
              ∧ ∀ name, name ∈ names_to_stop names info →
                  ∃ server, dict_get (servers info) name = Some server
                            ∧ (managed server = true
                               → is_Ok (_stop_container name)))).
Proof.
  intros Hread. unfold stop, _info_file, stop_body. rewrite Hread.
  case_bool_decide as Hnames; [by left |]. right. split; [done |].
  destruct (stop_loop (names_to_stop names info) true info [])
    as (all_good & removed & -> & Hremoved & Hgood).
  exists all_good, removed. split; [by destruct all_good |]. split.
  - intros name. rewrite Hremoved, elem_of_nil. tauto.
  - rewrite Hgood. tauto.
Qed.

(** X19.  What [stop] leaves in the state file.  Every server that is named
    is forgotten, also when it was not started by the script and when
    stopping its container failed, and the servers that are not named are
    kept, in their order; without names, all servers are forgotten.  When
    there is nothing to go through, no name being given and the state having
    no servers, the command exits with status 1 and leaves the file as it
    is. *)
Theorem stop_state_file (names : list string) (content : string) (info : _InfoFile) :
  read_info_file content = Ok info →
  (stop _stop_container names content).1.2
  = if bool_decide (names_to_stop names info = []) then content
    else _InfoFile_model_dump_json
           {| servers := if bool_decide (names = []) then []
                         else filter (λ kv, kv.1 ∉ names) (servers info) |}.
Proof.
  intros Hread.
  destruct (stop_spec names content info Hread)
    as [[Hnone ->] | (Hsome & all_good & removed & -> & _)]; simpl.
  - by rewrite bool_decide_eq_true_2.
  - rewrite bool_decide_eq_false_2 by done. do 2 f_equal.
    unfold names_to_stop in *. case_bool_decide; [| done].
    apply filter_none, Forall_forall. intros [k v] Hin Hk. apply Hk.
    unfold dict_keys. apply list_elem_of_fmap. by exists (k, v).
Qed.

(** X20.  The containers that [stop] removes: [docker rm -f] is run for a
    name exactly when the name is gone through and the state has a server of
    that name that was started by the script.  It is never run for a server
    that the script only connected to, nor for a name the state does not
    know. *)
Theorem stop_removes_managed (names : list string) (content : string)
    (info : _InfoFile) (name : string) :
  read_info_file content = Ok info →
  name ∈ (stop _stop_container names content).2 ↔
  name ∈ names_to_stop names info
  ∧ ∃ server, dict_get (servers info) name = Some server ∧ managed server = true.
Proof.
  intros Hread.
  destruct (stop_spec names content info Hread)
    as [[Hnone ->] | (Hsome & all_good & removed & -> & Hremoved & _)]; simpl.
  - rewrite Hnone, !elem_of_nil. tauto.
  - apply Hremoved.
Qed.

(** X21.  How [stop] ends.  It runs to its end exactly when there is a name
    to go through, no name is gone through twice, every name is the name of a
    server of the state, and every container that it had to remove was
    removed without an exception.  In every other case it exits with status
    1; an exception never leaves it. *)
Theorem stop_status (names : list string) (content : string) (info : _InfoFile) :
  read_info_file content = Ok info →
  ((stop _stop_container names content).1.1 = Completed () ↔
   names_to_stop names info ≠ []
   ∧ NoDup (names_to_stop names info)
   ∧ ∀ name, name ∈ names_to_stop names info →
       ∃ server, dict_get (servers info) name = Some server
                 ∧ (managed server = true → is_Ok (_stop_container name)))
  ∧ ((stop _stop_container names content).1.1 = Completed ()
     ∨ (stop _stop_container names content).1.1 = SysExit 1).
Proof.
  intros Hread.
  destruct (stop_spec names content info Hread)
    as [[Hnone ->] | (Hsome & all_good & removed & -> & _ & Hgood)]; simpl.
  - split; [| by right]. split; [done | by intros [? _]].
  - split; [| destruct all_good; auto].
    rewrite <- Hgood. destruct all_good; split; try done; by intros [_ ?].
Qed.

End Stop.

(** X22.  [_start_external] records a server only when it is healthy.  The
    command runs to its end exactly when the name is new and the wait for the
    two health URLs, of thirty seconds each, returns normally; the state file
    then holds the servers it held, followed by the new one, which is marked
    as not started by the script.  In every other case the file is left as it
    is; and for a name that is known the command exits with status 1 at once,
    without a request. *)
Theorem start_external_outcome (fuel : nat) (net : Network) (name host : string)
    (base fixture : Z) (content : string) (now : Z) (info : _InfoFile)
    (status : ended unit) (content' : string) (now' : Z) :
  let server :=
    {| managed := false; hostname := host; base_port := base;
       fixture_port := fixture |} in
  read_info_file content = Ok info →
  _start_external fuel net name host base fixture content now
  = Some (status, content', now') →
  (status = Completed () ↔
   ((name ∉ dict_keys (servers info))
    ∧ wait_until_healthy fuel net server 30 now = Some (Ok (), now')))
  ∧ (status = Completed () →
     content' = _InfoFile_model_dump_json
                  {| servers := (servers info ++ [(name, server)])%list |})
  ∧ (status ≠ Completed () → content' = content)
  ∧ (name ∈ dict_keys (servers info) → status = SysExit 1 ∧ now' = now).
Proof.
  intros server Hread. unfold _start_external, _start_external_body.
  rewrite Hread. fold server.
  case_bool_decide as Hknown; simpl.
  - intros [= <- <- <-]. repeat split; try done. by intros [? _].
  - rewrite dict_set_fresh by done.
    destruct (wait_until_healthy fuel net server 30 now) as [[[[]|e] t]|] eqn:Hwait;
      simpl; [| | done].
    + intros [= <- <- <-]. repeat split; try done.
    + destruct (isinstance e TimeoutError); simpl; intros [= <- <- <-];
        repeat split; try done; by intros [_ [=]].
Qed.

(** X23.  [connect] rewrites the state file with the state it has read, so
    that a file that could not be read is replaced by the state with no
    servers.  It runs to its end exactly when the state has a server of the
    name and the wait for its two health URLs, of one second each, returns
    normally; it then prints one line, the JSON object with the base port
    and the fixture port of that server.  Otherwise it prints nothing, and
    for an unknown name it exits with status 1 without a request. *)
Theorem connect_outcome (fuel : nat) (net : Network) (name content : string)
    (now : Z) (info : _InfoFile) (status : ended unit) (content' : string)
    (now' : Z) (out : list string) :
  read_info_file content = Ok info →
  connect fuel net name content now = Some (status, content', now', out) →
  content' = _InfoFile_model_dump_json info
  ∧ (status = Completed () ↔
     ∃ server, dict_get (servers info) name = Some server
               ∧ wait_until_healthy fuel net server 1 now = Some (Ok (), now'))
  ∧ (∀ server, dict_get (servers info) name = Some server →
     (status = Completed () → out = [ports_json server])
     ∧ (status ≠ Completed () → out = []))
  ∧ (dict_get (servers info) name = None →
     status = SysExit 1 ∧ now' = now ∧ out = []).
Proof.
  intros Hread. unfold connect, _info_file. rewrite Hread. simpl.
  destruct (dict_get (servers info) name) as [server|] eqn:Hget.
  - destruct (wait_until_healthy fuel net server 1 now) as [[[[]|e] t]|] eqn:Hwait;
      [| | done].
    + intros [= <- <- <- <-]. repeat split; try done.
      * intros _. by exists server.
      * by intros _; simplify_eq.
    + destruct (isinstance e TimeoutError); intros [= <- <- <- <-];
        repeat split; try done;
        by intros (? & [= <-] & Hw); rewrite Hwait in Hw.
  - intros [= <- <- <- <-]. repeat split; try done. by intros (? & [=] & _).
Qed.

(** X24.  Recording a server with [_start_external] and forgetting it with
    [stop] compose to nothing: when the file that [_start_external] wrote is
    read back as the state it holds, [stop] of the name runs to its end,
    writes the state that was there before, and runs no [docker] command, the
    server not having been started by the script. *)
Theorem start_external_then_stop (_stop_container : string → result unit)
    (fuel : nat) (net : Network) (name host : string) (base fixture : Z)
    (content content' : string) (now now' : Z) (info : _InfoFile) :
  read_info_file content = Ok info →
  _start_external fuel net name host base fixture content now
  = Some (Completed (), content', now') →
  read_info_file content'
  = Ok {| servers :=
            (servers info
             ++ [(name, {| managed := false; hostname := host; base_port := base;
                           fixture_port := fixture |})])%list |} →
  stop _stop_container [name] content'
  = (Completed (), _InfoFile_model_dump_json info, []).
Proof.
  intros Hread Hstart Hback.
  assert (name ∉ dict_keys (servers info)) as Hfresh.
  { revert Hstart. unfold _start_external, _start_external_body. rewrite Hread.
    by case_bool_decide. }
  destruct (stop_spec _stop_container [name] content' _ Hback)
    as [[Hnone _] | (_ & all_good & removed & -> & Hremoved & Hgood)]; [done |].
  unfold names_to_stop in *. simpl in *.
  rewrite filter_notin_app_fresh by done.
  assert (all_good = true) as ->.
  { apply Hgood. split; [apply NoDup_singleton |].
    intros n ->%list_elem_of_singleton. eexists.
    split; [by apply dict_get_app_fresh | done]. }
  assert (removed = []) as ->.
  { apply elem_of_nil_inv. intros n [->%list_elem_of_singleton Hn]%Hremoved.
    destruct Hn as (server & Hget & Hmanaged).
    rewrite dict_get_app_fresh in Hget by done. by injection Hget as <-. }
  by destruct info.
Qed.

End Commands.

Lemma stop_state_file_witness :
  (@stop example_codec (λ _, Ok ()) ["external"] "<managed, external>").1.2
  = "<managed>".
Proof.
  by rewrite (@stop_state_file example_codec (λ _, Ok ()) ["external"]
                "<managed, external>" example_state_both).
Defined.

Lemma stop_removes_managed_witness :
  "wandb-local-testcontainer"
  ∈ (@stop example_codec (λ _, Ok ()) [] "<managed, external>").2
  ∧ "external" ∉ (@stop example_codec (λ _, Ok ()) [] "<managed, external>").2.
Proof.
  split.
  - apply (@stop_removes_managed example_codec (λ _, Ok ()) []
             "<managed, external>" example_state_both); [done |].
    split; [apply (bool_decide_unpack _); reflexivity |]. by eexists.
  - intros Hin.
    apply (@stop_removes_managed example_codec (λ _, Ok ()) []
             "<managed, external>" example_state_both) in Hin; [| done].
    by destruct Hin as (_ & server & [= <-] & Hmanaged).
Defined.

Lemma stop_status_witness :
  (@stop example_codec (λ _, Raise (Exn OSError "docker")) []
     "<managed, external>").1.1 = SysExit 1.
Proof.
  destruct (@stop_status example_codec (λ _, Raise (Exn OSError "docker")) []
              "<managed, external>" example_state_both eq_refl)
    as [Hiff [Hdone | Hexit]]; [| exact Hexit].
  apply Hiff in Hdone as (_ & _ & Hall).
  destruct (Hall "wandb-local-testcontainer") as (server & [= <-] & Hstop).
  - apply (bool_decide_unpack _). reflexivity.
  - by destruct (Hstop eq_refl) as [? [=]].
Defined.

Lemma start_external_outcome_witness :
  @_start_external example_codec 31 example_up "external" "localhost" 8080 9015
    "<managed>" 0
  = Some (Completed (), "<managed, external>", 40).
Proof.
  destruct (@_start_external example_codec 31 example_up "external" "localhost"
              8080 9015 "<managed>" 0) as [[[status content'] now']|] eqn:Hstart;
    [| discriminate Hstart].
  destruct (@start_external_outcome example_codec 31 example_up "external"
              "localhost" 8080 9015 "<managed>" 0 example_state_managed
              status content' now' eq_refl Hstart) as (Hiff & Hfile & _ & _).
  vm_compute in Hstart. by injection Hstart as <- <- <-.
Defined.

Lemma connect_outcome_witness :
  ∃ line, @connect example_codec 2 example_up "external" "<managed, external>" 0
          = Some (Completed (), "<managed, external>", 40, [line])
          ∧ line = ports_json example_external.
Proof.
  destruct (@connect example_codec 2 example_up "external" "<managed, external>" 0)
    as [[[[status content'] now'] out]|] eqn:Hconnect; [| discriminate Hconnect].
  destruct (@connect_outcome example_codec 2 example_up "external"
              "<managed, external>" 0 example_state_both status content' now' out
              eq_refl Hconnect) as (Hfile & Hiff & Hout & _).
  destruct (Hout example_external eq_refl) as [Hdone _].
  exists (ports_json example_external). split; [| done].
  vm_compute in Hconnect. injection Hconnect as <- <- <- <-. reflexivity.
Defined.

Lemma start_external_then_stop_witness :
  @stop example_codec (λ _, Raise (Exn OSError "docker")) ["external"]
    "<managed, external>"
  = (Completed (), "<managed>", []).
Proof.
  apply (@start_external_then_stop example_codec _ 31 example_up "external"
           "localhost" 8080 9015 "<managed>" "<managed, external>" 0 40
           example_state_managed); reflexivity.
Defined.

(** ** The ports of the container *)

Lemma digit_value_pretty_N_char (d : N) :
  (d < 10)%N →
  digit_value (pretty_N_char d) = Z.of_N d ∧ is_digit (pretty_N_char d) = true.
Proof.
  intros Hd.
  assert (d = 0 ∨ d = 1 ∨ d = 2 ∨ d = 3 ∨ d = 4 ∨ d = 5 ∨ d = 6 ∨ d = 7
          ∨ d = 8 ∨ d = 9)%N as Hcases by lia.
  repeat (destruct Hcases as [-> | Hcases]; [by vm_compute|]).
  subst d. by vm_compute.
Qed.

Lemma int_from_pretty_N_go (x : N) (s : string) :
  int_from 0 (pretty_N_go x s) = int_from (Z.of_N x) s.
Proof.
  revert s. induction (N.lt_wf_0 x) as [x _ IH]. intros s.
  assert (x = 0 ∨ 0 < x)%N as [-> | Hx] by lia.
  { by rewrite pretty_N_go_0. }
  rewrite pretty_N_go_step by done.
  rewrite IH by (by apply N.div_lt). simpl.
  destruct (digit_value_pretty_N_char (x `mod` 10)) as [-> _].
  { by apply N.mod_lt. }
  f_equal. rewrite (N.div_mod x 10) at 3 by done. lia.
Qed.

Lemma all_chars_pretty_N_go (x : N) (s : string) :
  all_chars is_digit s = true → all_chars is_digit (pretty_N_go x s) = true.
Proof.
  revert s. induction (N.lt_wf_0 x) as [x _ IH]. intros s Hs.
  assert (x = 0 ∨ 0 < x)%N as [-> | Hx] by lia.
  { by rewrite pretty_N_go_0. }
  rewrite pretty_N_go_step by done.
  apply IH; [by apply N.div_lt|]. simpl.
  destruct (digit_value_pretty_N_char (x `mod` 10)) as [_ ->]; [|done].
  by apply N.mod_lt.
Qed.

Lemma pretty_N_go_not_empty (x : N) (s : string) :
  s ≠ "" → pretty_N_go x s ≠ "".
Proof.
  revert s. induction (N.lt_wf_0 x) as [x _ IH]. intros s Hs.
  assert (x = 0 ∨ 0 < x)%N as [-> | Hx] by lia.
  { by rewrite pretty_N_go_0. }
  rewrite pretty_N_go_step by done.
  apply IH; [by apply N.div_lt|done].
Qed.

(** The decimal numeral of a positive number is a string of digits that is
    not empty, and [int] reads the number back. *)
Lemma pretty_positive_digits (n : Z) :
  0 < n →
  all_chars is_digit (pretty n) = true ∧ pretty n ≠ "" ∧ int (pretty n) = n.
Proof.
  destruct n as [|p|p]; [lia| |lia]. intros _.
  change (pretty (Z.pos p)) with (pretty_N_go (N.pos p) "").
  split_and!.
  - by apply all_chars_pretty_N_go.
  - rewrite pretty_N_go_step by lia. by apply pretty_N_go_not_empty.
  - unfold int. by rewrite int_from_pretty_N_go.
Qed.

Lemma append_cons (c : Ascii.ascii) (s t : string) :
  String c s +:+ t = String c (s +:+ t).
Proof. done. Qed.

Lemma append_nil (t : string) : "" +:+ t = t.
Proof. done. Qed.

Lemma append_empty (s : string) : s +:+ "" = s.
Proof.
  induction s as [|c s IH]; [done|]. by rewrite append_cons, IH.
Qed.

Lemma append_String (s : string) (c : Ascii.ascii) (t : string) :
  (s +:+ String c "") +:+ t = s +:+ String c t.
Proof.
  induction s as [|c' s IH]; [done|]. by rewrite !append_cons, IH.
Qed.

Ltac simpl_append := rewrite ?append_cons, ?append_nil.

Lemma span_all (p : Ascii.ascii → bool) (s : string) :
  all_chars p s = true → span p s = (s, "").
Proof.
  induction s as [|c s IH]; simpl; [done|].
  intros [Hc Hs]%andb_true_iff. by rewrite Hc, IH.
Qed.

Lemma span_until (p : Ascii.ascii → bool) (s : string) (c : Ascii.ascii)
    (rest : string) :
  all_chars p s = true → p c = false →
  span p (s +:+ String c rest) = (s, String c rest).
Proof.
  intros Hs Hc. induction s as [|c' s IH]; simpl_append; simpl in *.
  - by rewrite Hc.
  - apply andb_true_iff in Hs as [-> Hs]. by rewrite IH.
Qed.

Lemma span_taken (p : Ascii.ascii → bool) (s : string) :
  all_chars p (span p s).1 = true.
Proof.
  induction s as [|c s IH]; simpl; [done|].
  destruct (p c) eqn:Hc; [|done].
  destruct (span p s); simpl in *. by rewrite Hc.
Qed.

Lemma all_chars_impl (p q : Ascii.ascii → bool) (s : string) :
  (∀ c, p c = true → q c = true) → all_chars p s = true → all_chars q s = true.
Proof.
  intros Hpq. induction s as [|c s IH]; simpl; [done|].
  intros [Hc Hs]%andb_true_iff. by rewrite (Hpq c Hc), IH.
Qed.

Lemma all_chars_app (p : Ascii.ascii → bool) (s t : string) :
  all_chars p s = true → all_chars p t = true → all_chars p (s +:+ t) = true.
Proof.
  intros Hs Ht. induction s as [|c s IH]; simpl_append; simpl in *; [done|].
  apply andb_true_iff in Hs as [-> Hs]. by apply IH.
Qed.

Lemma is_digit_not_boundary (c : Ascii.ascii) :
  is_digit c = true → negb (is_line_boundary c) = true.
Proof.
  unfold is_digit, is_line_boundary.
  intros [?%Nat.leb_le ?%Nat.leb_le]%andb_true_iff.
  apply negb_true_iff, bool_decide_eq_false.
  rewrite !elem_of_cons, elem_of_nil. lia.
Qed.

Lemma splitlines_from_line (current line rest : string) :
  all_chars (λ c, negb (is_line_boundary c)) line = true →
  splitlines_from current (line +:+ LF +:+ rest)
  = (current +:+ line) :: splitlines_from "" rest.
Proof.
  revert current. induction line as [|c line IH]; intros current Hline.
  - simpl_append. simpl. rewrite append_empty. by destruct rest.
  - simpl in Hline. apply andb_true_iff in Hline as [Hc Hline].
    simpl_append. cbn [splitlines_from].
    apply negb_true_iff in Hc. rewrite Hc, IH by done.
    by rewrite append_String.
Qed.

(** Lines without a line boundary, each ended by a line feed, are split into
    these lines. *)
Lemma splitlines_unlines (lines : list string) :
  Forall (λ line, all_chars (λ c, negb (is_line_boundary c)) line = true) lines →
  splitlines (unlines lines) = lines.
Proof.
  unfold splitlines. induction 1 as [|line lines Hline _ IH]; [done|].
  simpl. by rewrite splitlines_from_line, IH.
Qed.

Lemma int_from_nonneg (acc : Z) (s : string) :
  all_chars is_digit s = true → 0 ≤ acc → 0 ≤ int_from acc s.
Proof.
  revert acc. induction s as [|c s IH]; simpl; intros acc Hs Hacc; [done|].
  apply andb_true_iff in Hs as [Hc Hs]. apply IH; [done|].
  unfold is_digit in Hc. apply andb_true_iff in Hc as [?%Nat.leb_le _].
  unfold digit_value. lia.
Qed.

(** The third group of a match is a string of digits. *)
Lemma port_line_re_fullmatch_digits (line group1 group3 : string) :
  port_line_re_fullmatch line = Some (group1, group3) →
  all_chars is_digit group3 = true.
Proof.
  unfold port_line_re_fullmatch. intros Hmatch.
  repeat (case_match; simplify_eq; try done).
  all: match goal with
       | H : span is_digit ?s = (?g, _) |- all_chars is_digit ?g = true =>
           pose proof (span_taken is_digit s) as Htaken;
           by rewrite H in Htaken
       end.
Qed.

(** The line that [docker port] prints for an IPv4 address is matched, and
    the line for an IPv6 address is not. *)
Lemma port_line_re_fullmatch_ipv4 (digits : string) :
  all_chars is_digit digits = true → digits ≠ "" →
  port_line_re_fullmatch ("8080/tcp -> 0.0.0.0:" +:+ digits)
  = Some ("8080", digits)
  ∧ port_line_re_fullmatch ("9015/tcp -> 0.0.0.0:" +:+ digits)
    = Some ("9015", digits).
Proof.
  intros Hd Hne. split; unfold port_line_re_fullmatch; simpl_append; simpl;
    rewrite (span_all _ _ Hd); simpl;
    by rewrite bool_decide_eq_false_2.
Qed.

Lemma port_line_re_fullmatch_ipv6 (digits : string) :
  port_line_re_fullmatch ("8080/tcp -> [::]:" +:+ digits) = None
  ∧ port_line_re_fullmatch ("9015/tcp -> [::]:" +:+ digits) = None.
Proof. by split; simpl_append. Qed.

(** X25.  [_get_ports] reads back the ports that [docker port] prints: from
    the four lines printed for a container whose ports 8080 and 9015 are
    published on all addresses as [base_port] and [fixture_port], both
    positive, it returns these two ports. *)
Theorem get_ports_docker_port_output (base_port fixture_port : Z) :
  0 < base_port → 0 < fixture_port →
  _get_ports (docker_port_output base_port fixture_port)
  = Some (_WandbContainerPorts.mk base_port fixture_port).
Proof.
  intros Hb Hf.
  destruct (pretty_positive_digits _ Hb) as (Hb1 & Hb2 & Hb3).
  destruct (pretty_positive_digits _ Hf) as (Hf1 & Hf2 & Hf3).
  unfold _get_ports, docker_port_output.
  rewrite splitlines_unlines.
  2: { repeat apply Forall_cons_2; [..|apply Forall_nil_2];
       (apply all_chars_app; [done|]);
       by apply (all_chars_impl is_digit); [apply is_digit_not_boundary|]. }
  cbn [foldl]. unfold _get_ports_line.
  destruct (port_line_re_fullmatch_ipv4 _ Hb1 Hb2) as [-> _].
  destruct (port_line_re_fullmatch_ipv4 _ Hf1 Hf2) as [_ ->].
  destruct (port_line_re_fullmatch_ipv6 (pretty base_port)) as [-> _].
  destruct (port_line_re_fullmatch_ipv6 (pretty fixture_port)) as [_ ->].
  simpl. rewrite Hb3, Hf3.
  by rewrite !bool_decide_eq_false_2 by lia.
Qed.

Lemma get_ports_docker_port_output_witness :
  _get_ports (docker_port_output 32768 32769)
  = Some (_WandbContainerPorts.mk 32768 32769).
Proof. by apply get_ports_docker_port_output. Defined.

Lemma foldl_get_ports_line (lines : list string) (acc : Z * Z) :
  ((foldl _get_ports_line acc lines).1 = acc.1
   ∨ ∃ line external, line ∈ lines
       ∧ port_line_re_fullmatch line = Some ("8080", external)
       ∧ (foldl _get_ports_line acc lines).1 = int external)
  ∧ ((foldl _get_ports_line acc lines).2 = acc.2
     ∨ ∃ line external, line ∈ lines
         ∧ port_line_re_fullmatch line = Some ("9015", external)
         ∧ (foldl _get_ports_line acc lines).2 = int external).
Proof.
  revert acc. induction lines as [|line lines IH]; intros acc; [by split; left|].
  cbn [foldl].
  destruct (IH (_get_ports_line acc line)) as [IH1 IH2].
  assert (∀ internal : string,
    (∃ line' external, line' ∈ lines
       ∧ port_line_re_fullmatch line' = Some (internal, external)
       ∧ (foldl _get_ports_line (_get_ports_line acc line) lines).1
         = int external) →
    ∃ line' external, line' ∈ line :: lines
       ∧ port_line_re_fullmatch line' = Some (internal, external)
       ∧ (foldl _get_ports_line (_get_ports_line acc line) lines).1
         = int external) as Hweaken1.
  { intros internal (line' & external & ? & ? & ?).
    exists line', external. by rewrite elem_of_cons; auto. }
  assert (∀ internal : string,
    (∃ line' external, line' ∈ lines
       ∧ port_line_re_fullmatch line' = Some (internal, external)
       ∧ (foldl _get_ports_line (_get_ports_line acc line) lines).2
         = int external) →
    ∃ line' external, line' ∈ line :: lines
       ∧ port_line_re_fullmatch line' = Some (internal, external)
       ∧ (foldl _get_ports_line (_get_ports_line acc line) lines).2
         = int external) as Hweaken2.
  { intros internal (line' & external & ? & ? & ?).
    exists line', external. by rewrite elem_of_cons; auto. }
  split.
  - destruct IH1 as [IH1 | IH1]; [|by right; apply Hweaken1].
    rewrite IH1. unfold _get_ports_line.
    destruct (port_line_re_fullmatch line) as [[internal external]|] eqn:Hm;
      [|by left].
    case_bool_decide as H8080; [subst internal|by case_bool_decide; left].
    right. exists line, external. by rewrite elem_of_cons; auto.
  - destruct IH2 as [IH2 | IH2]; [|by right; apply Hweaken2].
    rewrite IH2. unfold _get_ports_line.
    destruct (port_line_re_fullmatch line) as [[internal external]|] eqn:Hm;
      [|by left].
    case_bool_decide as H8080; [by left|].
    case_bool_decide as H9015; [subst internal|by left].
    right. exists line, external. by rewrite elem_of_cons; auto.
Qed.

(** X26.  The ports that [_get_ports] returns were read from the output: each
    is positive and is the external port of a line that matches the pattern,
    with the internal port 8080 for the base port and 9015 for the fixture
    port.  So the function returns [None] when the output has no such line
    for one of the two, or only lines whose external port reads as zero. *)
Theorem get_ports_sound (ports_str : string) (ports : _WandbContainerPorts.t) :
  _get_ports ports_str = Some ports →
  0 < _WandbContainerPorts.base_port ports
  ∧ published ports_str "8080" (_WandbContainerPorts.base_port ports)
  ∧ 0 < _WandbContainerPorts.fixture_port ports
  ∧ published ports_str "9015" (_WandbContainerPorts.fixture_port ports).
Proof.
  unfold _get_ports, published.
  destruct (foldl_get_ports_line (splitlines ports_str) (0, 0)) as [H1 H2].
  destruct (foldl _get_ports_line (0, 0) (splitlines ports_str))
    as [base_port fixture_port].
  simpl in *. intros Hports.
  case_bool_decide as Hb; [done|]. case_bool_decide as Hf; [done|].
  simplify_eq/=.
  destruct H1 as [? | (line1 & external1 & Hin1 & Hm1 & ->)]; [done|].
  destruct H2 as [? | (line2 & external2 & Hin2 & Hm2 & ->)]; [done|].
  pose proof (int_from_nonneg 0 external1
    (port_line_re_fullmatch_digits _ _ _ Hm1)) as Hpos1.
  pose proof (int_from_nonneg 0 external2
    (port_line_re_fullmatch_digits _ _ _ Hm2)) as Hpos2.
  unfold int in *. split_and!; [lia|by eauto|lia|by eauto].
Qed.

Lemma get_ports_sound_witness :
  published (docker_port_output 32768 32769) "8080" 32768
  ∧ published (docker_port_output 32768 32769) "9015" 32769.
Proof.
  destruct (get_ports_sound (docker_port_output 32768 32769)
              (_WandbContainerPorts.mk 32768 32769)) as (_ & ? & _ & ?).
  - reflexivity.
  - by split.
Defined.

Section get_ports_retrying.
Variable docker_port : DockerPort.
Variable name : string.

(** No call of [docker port] takes a negative time. *)
Hypothesis time_passes_docker :
  ∀ now : Z, 0 ≤ (docker_port name now).2.

Lemma _get_ports_loop_outcome (fuel : nat) (ports_start_time now : Z) :
  ports_start_time ≤ now →
  1000 - (now - ports_start_time) ≤ 100 * Z.of_nat fuel →
  ∃ (r : result (option _WandbContainerPorts.t)) (now' : Z),
    _get_ports_loop fuel docker_port name ports_start_time None now
    = Some (r, now')
    ∧ now ≤ now'
    ∧ match r with
      | Ok (Some ports) =>
          ∃ (t took : Z) (ports_str : string),
            now ≤ t < ports_start_time + 1000
            ∧ docker_port name t = (Ok ports_str, took)
            ∧ _get_ports ports_str = Some ports
            ∧ now' = t + took
      | Ok None => ports_start_time + 1000 ≤ now'
      | Raise e =>
          ∃ t took : Z,
            now ≤ t < ports_start_time + 1000
            ∧ docker_port name t = (Raise e, took)
            ∧ now' = t + took
      end.
Proof.
  revert now. induction fuel as [|fuel IH]; intros now Hstart Hfuel.
  - exists (Ok None), now. simpl.
    rewrite bool_decide_eq_false_2 by lia. split_and!; [done|lia|lia].
  - cbn [_get_ports_loop].
    case_bool_decide as Hnow;
      [|by exists (Ok None), now; split_and!; [done|lia|lia]].
    pose proof (time_passes_docker now) as Htook.
    destruct (docker_port name now) as [[ports_str|e] took] eqn:Hcall;
      simpl in Htook.
    + destruct (_get_ports ports_str) as [ports|] eqn:Hports.
      * exists (Ok (Some ports)), (now + took). simpl.
        destruct fuel; simpl; (split_and!; [done|lia|]);
          exists now, took, ports_str; split_and!; (done || lia).
      * destruct (IH (now + took + 100)) as (r & now' & -> & ? & Hr);
          [lia|lia|].
        exists r, now'. split_and!; [done|lia|].
        destruct r as [[ports|]|e]; [|done|].
        -- destruct Hr as (t & took' & out & ? & ? & ? & ?).
           exists t, took', out. split_and!; (done || lia).
        -- destruct Hr as (t & took' & ? & ? & ?).
           exists t, took'. split_and!; (done || lia).
    + exists (Raise e), (now + took). split_and!; [done|lia|].
      exists now, took. split_and!; (done || lia).
Qed.

(** X27.  [_get_ports_retrying] ends after at most ten calls of
    [docker port], if no call takes a negative time.  The ports it returns
    are those that [_get_ports] found in the output of a call begun less
    than a second after the start, and the function returns as soon as
    that call does.  It exits with status 1 only a second or more after the
    start, and an exception that escapes is the one that such a call
    raised. *)
Theorem get_ports_retrying_outcome (fuel : nat) (now : Z) :
  (10 ≤ fuel)%nat →
  ∃ (status : ended _WandbContainerPorts.t) (now' : Z),
    _get_ports_retrying fuel docker_port name now = Some (status, now')
    ∧ now ≤ now'
    ∧ match status with
      | Completed ports =>
          ∃ (t took : Z) (ports_str : string),
            now ≤ t < now + 1000
            ∧ docker_port name t = (Ok ports_str, took)
            ∧ _get_ports ports_str = Some ports
            ∧ now' = t + took
      | SysExit code => code = 1 ∧ now + 1000 ≤ now'
      | Uncaught e =>
          ∃ t took : Z,
            now ≤ t < now + 1000
            ∧ docker_port name t = (Raise e, took)
            ∧ now' = t + took
      end.
Proof.
  intros Hfuel. unfold _get_ports_retrying.
  destruct (_get_ports_loop_outcome fuel now now) as (r & now' & -> & ? & Hr);
    [lia|lia|].
  destruct r as [[ports|]|e]; eauto 10.
Qed.
End get_ports_retrying.

Lemma get_ports_retrying_outcome_witness :
  ∃ (status : ended _WandbContainerPorts.t) (now' : Z),
    _get_ports_retrying 10 example_docker_port "wandb-local-testcontainer" 500
    = Some (status, now')
    ∧ 500 ≤ now'
    ∧ match status with
      | Completed ports =>
          ∃ (t took : Z) (ports_str : string),
            500 ≤ t < 500 + 1000
            ∧ example_docker_port "wandb-local-testcontainer" t
              = (Ok ports_str, took)
            ∧ _get_ports ports_str = Some ports
            ∧ now' = t + took
      | SysExit code => code = 1 ∧ 500 + 1000 ≤ now'
      | Uncaught e =>
          ∃ t took : Z,
            500 ≤ t < 500 + 1000
            ∧ example_docker_port "wandb-local-testcontainer" t = (Raise e, took)
            ∧ now' = t + took
      end.
Proof.
  apply (get_ports_retrying_outcome example_docker_port
           "wandb-local-testcontainer").
  - intros now. unfold example_docker_port. case_bool_decide; simpl; lia.
  - lia.
Defined.

(** ** Starting a container *)

Lemma dict_get_dict_set {V} (d : list (string * V)) (key : string) (value : V) :
  dict_get (dict_set d key value) key = Some value.
Proof.
  induction d as [|[k v] d IH]; simpl.
  - by rewrite bool_decide_eq_true_2.
  - case_bool_decide as Hk; simpl.
    + by rewrite bool_decide_eq_true_2.
    + by rewrite bool_decide_eq_false_2.
Qed.

Lemma dict_set_dict_set {V} (d : list (string * V)) (key : string) (v1 v2 : V) :
  dict_set (dict_set d key v1) key v2 = dict_set d key v2.
Proof.
  induction d as [|[k v] d IH]; simpl.
  - by rewrite bool_decide_eq_true_2.
  - case_bool_decide as Hk; simpl.
    + by rewrite bool_decide_eq_true_2.
    + by rewrite bool_decide_eq_false_2, IH.
Qed.

Lemma filter_ne_dict_set {V} (d : list (string * V)) (key : string) (value : V) :
  filter (λ kv, kv.1 ≠ key) (dict_set d key value) = filter (λ kv, kv.1 ≠ key) d.
Proof.
  induction d as [|[k v] d IH]; simpl.
  - by rewrite filter_cons_False, filter_nil by (simpl; auto).
  - case_bool_decide as Hk; simpl.
    + by rewrite !filter_cons_False by (simpl; auto).
    + by rewrite !filter_cons_True, IH by done.
Qed.

Lemma _get_ports_loop_found (fuel : nat) (docker_port : DockerPort) (name : string)
    (ports_start_time now : Z) (ports : _WandbContainerPorts.t) (now' : Z) :
  _get_ports_loop fuel docker_port name ports_start_time None now
  = Some (Ok (Some ports), now') →
  ∃ (t took : Z) (ports_str : string),
    docker_port name t = (Ok ports_str, took)
    ∧ _get_ports ports_str = Some ports
    ∧ now' = t + took.
Proof.
  revert now. induction fuel as [|fuel IH]; intros now; cbn [_get_ports_loop].
  - by case_bool_decide.
  - case_bool_decide; [|done].
    destruct (docker_port name now) as [[ports_str|e] took] eqn:Hcall; [|done].
    destruct (_get_ports ports_str) as [found|] eqn:Hports.
    + destruct fuel; simpl; intros [= <- <-]; by exists now, took, ports_str.
    + apply IH.
Qed.

Lemma _get_ports_retrying_inv (fuel : nat) (docker_port : DockerPort) (name : string)
    (now : Z) (status : ended _WandbContainerPorts.t) (now' : Z) :
  _get_ports_retrying fuel docker_port name now = Some (status, now') →
  match status with
  | Completed ports =>
      ∃ (t took : Z) (ports_str : string),
        docker_port name t = (Ok ports_str, took)
        ∧ _get_ports ports_str = Some ports
        ∧ now' = t + took
  | SysExit code => code = 1
  | Uncaught _ => True
  end.
Proof.
  unfold _get_ports_retrying.
  destruct (_get_ports_loop fuel docker_port name now None now)
    as [[[[ports|]|e] t]|] eqn:Hloop; intros [= <- <-]; try done.
  by eapply _get_ports_loop_found.
Qed.

Section Interactive.
Context `{InfoFileCodec}.
Variable fuel : nat.
Variable net : Network.
Variable answers : Prompts.
Variable check_call : CheckCall.
Variable docker_port : DockerPort.

(** The ways in which [_start_container] ends. *)
Lemma _start_container_inv (name : string) (now : Z) (ran : list (list string))
    (status : ended _WandbContainerPorts.t) (w : World) :
  _start_container fuel answers check_call docker_port name (now, ran)
  = Some (status, w) →
  w.2 = (ran ++ [docker_run_command answers name])%list
  ∧ match status with
    | Completed ports =>
        ∃ (t took : Z) (ports_str : string),
          docker_port name t = (Ok ports_str, took)
          ∧ _get_ports ports_str = Some ports
          ∧ w.1 = t + took
    | SysExit code => code = 1
    | Uncaught _ => True
    end.
Proof.
  unfold _start_container.
  destruct (check_call _ now) as [[[]|e] took]; [|by intros [= <- <-]].
  destruct (_get_ports_retrying _ _ _ _) as [[status' t]|] eqn:Hports; [|done].
  intros [= <- <-]. split; [done|].
  apply _get_ports_retrying_inv in Hports. by destruct status'.
Qed.

(** The ways in which the check of the previous server ends. *)
Lemma check_previous_inv (name : string) (info : _InfoFile) (now : Z)
    (status : ended unit) (now' : Z) :
  check_previous fuel net name info now = Some (status, now') →
  match status with
  | SysExit code =>
      code = 0
      ∧ ∃ prev, dict_get (servers info) name = Some prev
                ∧ wait_until_healthy fuel net prev 1 now = Some (Ok (), now')
  | _ =>
      ∀ prev t, dict_get (servers info) name = Some prev →
                wait_until_healthy fuel net prev 1 now ≠ Some (Ok (), t)
  end.
Proof.
  unfold check_previous.
  destruct (dict_get (servers info) name) as [prev|]; [|by intros [= <- <-]].
  destruct (wait_until_healthy fuel net prev 1 now) as [[[[]|e] t]|] eqn:Hwait;
    [| |done].
  - intros [= <- <-]. split; [done|]. by exists prev.
  - destruct (isinstance e TimeoutError); intros [= <- <-];
      intros ?? [= <-]; by rewrite Hwait.
Qed.

(** X28.  When [_start_interactively] runs to its end, the one command it
    has run with [check_call] is the [docker run] of the name; [docker port]
    has been asked for the ports, with [check_output], and the state file
    holds the server of the name as started by the script, on [localhost],
    with the two ports that [_get_ports] read from an output of
    [docker port].  This server has answered the wait of thirty seconds that
    began when the ports were found.  A server of that name that the state
    held is replaced, in its place. *)
Theorem start_interactively_completed (name content : string) (now : Z)
    (info : _InfoFile) (content' : string) (now' : Z) (ran : list (list string)) :
  read_info_file content = Ok info →
  _start_interactively fuel net answers check_call docker_port name content now
  = Some (Completed (), content', (now', ran)) →
  ∃ (base fixture t took : Z) (ports_str : string),
    let server :=
      {| managed := true; hostname := "localhost"; base_port := base;
         fixture_port := fixture |} in
    docker_port name t = (Ok ports_str, took)
    ∧ _get_ports ports_str = Some (_WandbContainerPorts.mk base fixture)
    ∧ wait_until_healthy fuel net server 30 (t + took) = Some (Ok (), now')
    ∧ content'
      = _InfoFile_model_dump_json
          {| servers := dict_set (servers info) name server |}
    ∧ ran = [docker_run_command answers name].
Proof.
  intros Hread. unfold _start_interactively, _start_interactively_body.
  rewrite Hread.
  destruct (check_previous fuel net name info now) as [[[[]| |] t0]|]; try done.
  destruct (_start_container _ _ _ _ _ _) as [[[ports| |] [t1 ran1]]|] eqn:Hstart;
    try done.
  apply _start_container_inv in Hstart
    as [Hran (t & took & ports_str & Hcall & Hports & Ht)].
  simpl in Hran, Ht. subst t1 ran1.
  destruct (wait_until_healthy _ _ _ _ _) as [[[[]|e] t2]|] eqn:Hwait;
    [| |done].
  - simpl. intros [= <- <- <-].
    exists (_WandbContainerPorts.base_port ports),
      (_WandbContainerPorts.fixture_port ports), t, took, ports_str.
    simpl. rewrite dict_set_dict_set. by destruct ports.
  - by destruct (isinstance e TimeoutError).
Qed.

(** X29.  [_start_interactively] leaves the state file as it is unless it
    runs to its end: also when [docker run] has started the container and
    the ports were not found or the wait for the server timed out, so that
    this container is not recorded.  It exits with status 0 exactly when the
    state has a server of the name that answers the wait of one second, and
    it has then run no command; every other exit has status 1. *)
Theorem start_interactively_not_completed (name content : string) (now : Z)
    (info : _InfoFile) (status : ended unit) (content' : string) (now' : Z)
    (ran : list (list string)) :
  read_info_file content = Ok info →
  _start_interactively fuel net answers check_call docker_port name content now
  = Some (status, content', (now', ran)) →
  (status ≠ Completed () → content' = content)
  ∧ (status = SysExit 0 ↔
     ∃ prev, dict_get (servers info) name = Some prev
             ∧ wait_until_healthy fuel net prev 1 now = Some (Ok (), now'))
  ∧ (status = SysExit 0 → ran = [])
  ∧ (∀ code, status = SysExit code → code = 0 ∨ code = 1).
Proof.
  intros Hread. unfold _start_interactively, _start_interactively_body.
  rewrite Hread.
  destruct (check_previous fuel net name info now) as [[[[]|code|e] t0]|]
    eqn:Hprev; try done.
  - apply check_previous_inv in Hprev.
    destruct (_start_container _ _ _ _ _ _) as [[[ports|code|e] [t1 ran1]]|]
      eqn:Hstart; try done.
    + destruct (wait_until_healthy _ _ _ _ _) as [[[[]|e] t2]|] eqn:Hwait;
        [| |done].
      * simpl. intros [= <- <- <- <-]. split_and!; try done.
        split; [done|]. intros (prev & Hget & Hw). by destruct (Hprev _ _ Hget Hw).
      * destruct (isinstance e TimeoutError); simpl; intros [= <- <- <- <-];
          (split_and!; [done| |done|by intros ? [= <-]; auto]);
          (split; [done|]);
          intros (prev & Hget & Hw); by destruct (Hprev _ _ Hget Hw).
    + apply _start_container_inv in Hstart as [_ ->].
      simpl. intros [= <- <- <- <-].
      split_and!; [done| |done|by intros ? [= <-]; auto].
      split; [done|]. intros (prev & Hget & Hw). by destruct (Hprev _ _ Hget Hw).
    + simpl. intros [= <- <- <- <-]. split_and!; try done.
      split; [done|]. intros (prev & Hget & Hw). by destruct (Hprev _ _ Hget Hw).
  - apply check_previous_inv in Hprev as [-> Hprev].
    simpl. intros [= <- <- <- <-].
    split_and!; [done|done|done|by intros ? [= <-]; auto].
  - apply check_previous_inv in Hprev.
    simpl. intros [= <- <- <- <-]. split_and!; try done.
    split; [done|]. intros (prev & Hget & Hw). by destruct (Hprev _ _ Hget Hw).
Qed.

(** X30.  Starting a container and stopping it: when [_start_interactively]
    has run to its end and the file it wrote is read back as the state it
    holds, [stop] of the name runs [docker rm -f] for it, once, leaves in the
    file the other servers that were there before the start, and runs to its
    end unless the removal raised, in which case it exits with status 1. *)
Theorem start_interactively_then_stop (_stop_container : string → result unit)
    (name content : string) (now : Z) (info : _InfoFile) (content' : string)
    (now' : Z) (ran : list (list string)) :
  read_info_file content = Ok info →
  _start_interactively fuel net answers check_call docker_port name content now
  = Some (Completed (), content', (now', ran)) →
  (∀ state, content' = _InfoFile_model_dump_json state →
            read_info_file content' = Ok state) →
  stop _stop_container [name] content'
  = (match _stop_container name with
     | Ok _ => Completed ()
     | Raise _ => SysExit 1
     end,
     _InfoFile_model_dump_json
       {| servers := filter (λ kv, kv.1 ≠ name) (servers info) |},
     [name]).
Proof.
  intros Hread Hstart Hback.
  assert (∃ server, managed server = true
            ∧ content' = _InfoFile_model_dump_json
                           {| servers := dict_set (servers info) name server |})
    as (server & Hmanaged & Hcontent).
  { revert Hstart. unfold _start_interactively, _start_interactively_body.
    rewrite Hread.
    destruct (check_previous fuel net name info now) as [[[[]| |] t0]|];
      try done.
    destruct (_start_container _ _ _ _ _ _) as [[[ports| |] [t1 ran1]]|];
      try done.
    destruct (wait_until_healthy _ _ _ _ _) as [[[[]|e] t2]|]; [| |done].
    - simpl. intros [= <- <- <-]. rewrite dict_set_dict_set.
      eexists. split; [|reflexivity]. done.
    - by destruct (isinstance e TimeoutError). }
  apply Hback in Hcontent.
  unfold stop, _info_file, stop_body, names_to_stop. rewrite Hcontent.
  simpl. unfold dict_pop. simpl. rewrite dict_get_dict_set, Hmanaged. simpl.
  rewrite filter_ne_dict_set.
  by destruct (_stop_container name).
Qed.

End Interactive.

Lemma start_interactively_completed_witness :
  ∃ (base fixture t took : Z) (ports_str : string),
    let server :=
      {| managed := true; hostname := "localhost"; base_port := base;
         fixture_port := fixture |} in
    example_docker_port "wandb-local-testcontainer" t = (Ok ports_str, took)
    ∧ _get_ports ports_str = Some (_WandbContainerPorts.mk base fixture)
    ∧ wait_until_healthy 40 example_up server 30 (t + took) = Some (Ok (), 830)
    ∧ "<managed>"
      = @_InfoFile_model_dump_json example_codec
          {| servers := dict_set [] "wandb-local-testcontainer" server |}
    ∧ [docker_run_command example_answers "wandb-local-testcontainer"]
      = [docker_run_command example_answers "wandb-local-testcontainer"].
Proof.
  apply (@start_interactively_completed example_codec 40 example_up
           example_answers example_check_call example_docker_port
           "wandb-local-testcontainer" "<no servers>" 0 {| servers := [] |}).
  - reflexivity.
  - reflexivity.
Defined.

Lemma start_interactively_not_completed_witness :
  @_start_interactively example_codec 40 example_down example_answers
    example_check_call example_docker_port "wandb-local-testcontainer"
    "<no servers>" 0
  = Some (SysExit 1, "<no servers>",
          (30883, [docker_run_command example_answers "wandb-local-testcontainer"]))
  ∧ ¬ ∃ prev,
        dict_get [] "wandb-local-testcontainer" = Some prev
        ∧ wait_until_healthy 40 example_down prev 1 0 = Some (Ok (), 30883).
Proof.
  split; [reflexivity|].
  destruct (@start_interactively_not_completed example_codec 40 example_down
              example_answers example_check_call example_docker_port
              "wandb-local-testcontainer" "<no servers>" 0 {| servers := [] |}
              (SysExit 1) "<no servers>" 30883
              [docker_run_command example_answers "wandb-local-testcontainer"]
              eq_refl eq_refl) as (_ & Hexit & _).
  intros Hprev. by apply Hexit in Hprev.
Defined.

Lemma start_interactively_then_stop_witness :
  @stop example_codec (λ _, Ok ()) ["wandb-local-testcontainer"] "<managed>"
  = (Completed (), "<no servers>", ["wandb-local-testcontainer"]).
Proof.
  apply (@start_interactively_then_stop example_codec 40 example_up
           example_answers example_check_call example_docker_port (λ _, Ok ())
           "wandb-local-testcontainer" "<no servers>" 0 {| servers := [] |}
           "<managed>" 830
           [docker_run_command example_answers "wandb-local-testcontainer"]).
  - reflexivity.
  - reflexivity.
  - intros state. unfold _InfoFile_model_dump_json. simpl.
    repeat case_decide; simpl; by intros; simplify_eq.
Defined.
